(** * rasa_core.policies.plans: the slot-filling plan engine

    A shallow embedding of [src/rasa_core/policies/plans.py] (class
    [SimpleForm] and the action [PlanComplete]) together with the
    properties of it that the specification states.

    Conventions of the embedding:
    - a Python [dict] is a [gmap]; iterating over it is iterating over
      [map_to_list]; every use the code makes of an iteration order goes
      through [set(...)], so no property depends on the order chosen;
    - [list(set(xs) - set(ys))] is [elements (list_to_set xs ∖ list_to_set ys)];
    - a method of [SimpleForm] that assigns to [self] is a computation in
      the monad [M]: it returns a value or raises, and the assignments made
      before an exception are kept, as in Python;
    - [np.random.choice] reads a number supplied by the caller;
    - an expression of the host that may raise before the method gets a
      value (the intent name of the tracker) is a [result];
    - float values are left out. *)

From Stdlib Require Import String Ascii ZArith List.
From stdpp Require Import base option list strings gmap fin_maps fin_sets.

(** ** Values *)

(** A slot value of the tracker.  [PNone] is Python's [None]; lists and
    dicts are the values Python cannot hash. *)
Inductive pyval : Type :=
| PNone
| PStr (s : string)
| PBool (b : bool)
| PInt (z : Z)
| PList (l : list pyval)
| PDict (d : list (string * pyval)).

(** A key of a Python dict, up to the equality a dict lookup uses
    ([==] together with [hash]): [True] and [1] are one key, [False] and
    [0] are one key, a string is equal to itself only, [None] to [None]. *)
Inductive pykey : Type :=
| KNone
| KStr (s : string)
| KNum (z : Z).

#[global] Instance pykey_eq_dec : EqDecision pykey.
Proof. solve_decision. Defined.

Definition pykey_to_sum (k : pykey) : unit + (string + Z) :=
  match k with
  | KNone => inl tt
  | KStr s => inr (inl s)
  | KNum z => inr (inr z)
  end.

Definition pykey_of_sum (x : unit + (string + Z)) : pykey :=
  match x with
  | inl _ => KNone
  | inr (inl s) => KStr s
  | inr (inr z) => KNum z
  end.

#[global] Instance pykey_countable : Countable pykey.
Proof.
  apply (inj_countable' pykey_to_sum pykey_of_sum).
  intros k; destruct k; reflexivity.
Defined.

(** [hash(v)]: the key under which a dict finds [v], or [None] where
    Python raises [TypeError: unhashable type]. *)
Definition key_of (v : pyval) : option pykey :=
  match v with
  | PNone => Some KNone
  | PStr s => Some (KStr s)
  | PBool b => Some (KNum (if b then 1 else 0))
  | PInt z => Some (KNum z)
  | PList _ => None
  | PDict _ => None
  end.

(** [value is not None] *)
Definition is_not_None (v : pyval) : bool :=
  match v with PNone => false | _ => true end.

(** ** Strings *)

Fixpoint str_drop (n : nat) (s : string) : string :=
  match n, s with
  | O, _ => s
  | S n', String _ s' => str_drop n' s'
  | S _, EmptyString => EmptyString
  end.

(** [s.replace(old, new, 1)]: the first occurrence of [old] in [s], read
    from the left, is replaced by [new]; [s] is returned when there is none. *)
Fixpoint str_replace_first (old new s : string) : string :=
  if String.prefix old s then new +:+ str_drop (String.length old) s
  else match s with
       | EmptyString => EmptyString
       | String c s' => String c (str_replace_first old new s')
       end.

(** [sub in s] on two strings. *)
Fixpoint str_contains (sub s : string) : bool :=
  if String.prefix sub s then true
  else match s with
       | EmptyString => false
       | String _ s' => str_contains sub s'
       end.

(** ** Exceptions and the monad of the methods *)

Inductive pyerr : Type :=
| AttributeError   (* [None.items()], [None.keys()], [None.check_unfilled_slots] *)
| TypeError        (* [x in None] *)
| KeyError         (* [d[k]] with [k] not a key of [d] *)
| ValueError       (* [np.random.choice([])] *)
| DomainError.     (* raised by the domain registry *)

Inductive result (A : Type) : Type :=
| Ok (a : A)
| Raise (e : pyerr).
Arguments Ok {A} a.
Arguments Raise {A} e.

Definition result_map {A B} (f : A -> B) (r : result A) : result B :=
  match r with
  | Ok a => Ok (f a)
  | Raise e => Raise e
  end.

(** ** Data *)

(** A leaf of the rule specification: a dict that may hold the keys
    ['need'] and ['lose'], each with a list of slot names. *)
Abbreviation rule_leaf := (gmap string (list string)).

(** The [rules] argument of the constructor: slot name, then slot value,
    then the leaf.  Both levels are Python dicts, so the values are keys. *)
Abbreviation rules_spec := (gmap string (gmap pykey rule_leaf)).

(** The compiled table: [(slot, value)] to [(rules.get('need'),
    rules.get('lose'))]; [dict.get] gives [None] for an absent key. *)
Abbreviation rule_entry := (option (list string) * option (list string))%type.
Abbreviation rule_table := (gmap (string * pykey) rule_entry).

(** An entry of [self.queue].  The code puts action names in the queue and,
    through [self.queue.append(self._make_question_queue(...))], whole
    lists of action names as single entries. *)
Inductive qitem : Type :=
| QAct (a : string)
| QList (l : list string).

#[global] Instance qitem_eq_dec : EqDecision qitem.
Proof. solve_decision. Defined.

Record SimpleForm : Type := mkSimpleForm {
  name : string;
  slot_dict : gmap string (gmap string string);
  current_required : list string;
  required_slots : list string;
  optional_slots : option (list string);
  exit_dict : option (gmap string string);
  chitchat_dict : option (gmap string string);
  finish_action : string;
  details_intent : option (list string);
  rules_yaml : option rules_spec;
  rules : option rule_table;
  subject : option string;
  last_question : option string;
  queue : list qitem
}.

(** [self.current_required = v], [self.last_question = v], [self.queue = v] *)
Definition set_current_required (v : list string) (self : SimpleForm) : SimpleForm :=
  {| name := name self; slot_dict := slot_dict self;
     current_required := v;
     required_slots := required_slots self;
     optional_slots := optional_slots self; exit_dict := exit_dict self;
     chitchat_dict := chitchat_dict self; finish_action := finish_action self;
     details_intent := details_intent self; rules_yaml := rules_yaml self;
     rules := rules self; subject := subject self;
     last_question := last_question self; queue := queue self |}.

Definition set_last_question (v : option string) (self : SimpleForm) : SimpleForm :=
  {| name := name self; slot_dict := slot_dict self;
     current_required := current_required self;
     required_slots := required_slots self;
     optional_slots := optional_slots self; exit_dict := exit_dict self;
     chitchat_dict := chitchat_dict self; finish_action := finish_action self;
     details_intent := details_intent self; rules_yaml := rules_yaml self;
     rules := rules self; subject := subject self;
     last_question := v; queue := queue self |}.

Definition set_queue (v : list qitem) (self : SimpleForm) : SimpleForm :=
  {| name := name self; slot_dict := slot_dict self;
     current_required := current_required self;
     required_slots := required_slots self;
     optional_slots := optional_slots self; exit_dict := exit_dict self;
     chitchat_dict := chitchat_dict self; finish_action := finish_action self;
     details_intent := details_intent self; rules_yaml := rules_yaml self;
     rules := rules self; subject := subject self;
     last_question := last_question self; queue := v |}.

(** What the methods read of the dialogue state tracker:
    - [tracker.current_slot_values()];
    - [tracker.latest_message.parse_data['intent']['name']], an expression
      that raises when the parse data holds no intent or the intent no
      name, and otherwise gives a string or [None];
    - [tracker.latest_action_name], a string or [None];
    - [tracker.active_plan]. *)
Record Tracker : Type := mkTracker {
  current_slot_values : gmap string pyval;
  latest_intent_name : result (option string);
  latest_action_name : option string;
  active_plan : option SimpleForm
}.

(** The domain registry is not part of this module; the methods only call
    [domain.index_for_action] on a queue entry, which returns an index or
    raises.  It is a parameter of the embedding. *)
Record Domain : Type := mkDomain {
  index_for_action : qitem -> result nat
}.

(** ** The monad *)

Definition M (A : Type) : Type := SimpleForm -> result A * SimpleForm.

Definition ret {A} (a : A) : M A := fun self => (Ok a, self).

Definition raise {A} (e : pyerr) : M A := fun self => (Raise e, self).

Definition bind {A B} (c : M A) (k : A -> M B) : M B :=
  fun self =>
    match c self with
    | (Ok a, self') => k a self'
    | (Raise e, self') => (Raise e, self')
    end.

Definition get : M SimpleForm := fun self => (Ok self, self).

Definition modify (f : SimpleForm -> SimpleForm) : M unit :=
  fun self => (Ok tt, f self).

Definition lift {A} (r : result A) : M A := fun self => (r, self).

Notation "'let!' x ':=' c 'in' k" := (bind c (fun x => k))
  (at level 10, x name, c at level 200, k at level 200, only parsing).

(** [d[k]] *)
Definition getitem {K V} `{Countable K} (d : gmap K V) (k : K) : M V :=
  match d !! k with
  | Some v => ret v
  | None => raise KeyError
  end.

(** [d[k]] where [k] may be [None]: the dicts of a plan have string keys. *)
Definition getitem_opt {V} (d : gmap string V) (k : option string) : M V :=
  match k with
  | Some k' => getitem d k'
  | None => raise KeyError
  end.

(** An attribute access [x.keys()], [x.items()] on a value that may be [None]. *)
Definition attr {A} (x : option A) : M A :=
  match x with
  | Some a => ret a
  | None => raise AttributeError
  end.

(** ** [SimpleForm] *)

(** [_process_rules]: the two nested loops over [rules.items()] and
    [values.items()], each leaf assigned to [rule_dict[(slot, value)]]. *)
Definition compile_leaf (leaf : rule_leaf) : rule_entry :=
  (leaf !! "need", leaf !! "lose").

Definition process_values (slot : string) (rule_dict : rule_table)
    (values : list (pykey * rule_leaf)) : rule_table :=
  foldl (fun rd vl => <[(slot, vl.1) := compile_leaf vl.2]> rd) rule_dict values.

Definition process_rules_dict (rules : rules_spec) : rule_table :=
  foldl (fun rd sv => process_values sv.1 rd (map_to_list sv.2))
        ∅ (map_to_list rules).

Definition _process_rules (rules : option rules_spec) : result rule_table :=
  match rules with
  | None => Raise AttributeError
  | Some r => Ok (process_rules_dict r)
  end.

(** [__init__].  [self.required_slots = self.current_required] binds both
    names to one list; no method changes that list in place
    ([_update_requirements] rebinds [self.current_required]), so the two
    fields are modelled as two values. *)
Definition SimpleForm_init (name : string)
    (slot_dict : gmap string (gmap string string)) (finish_action : string)
    (optional_slots : option (list string))
    (exit_dict chitchat_dict : option (gmap string string))
    (details_intent : option (list string))
    (rules : option rules_spec) (subject : option string) : result SimpleForm :=
  let current_required := (map_to_list slot_dict).*1 in
  match _process_rules rules with
  | Raise e => Raise e
  | Ok table =>
      Ok {| name := name; slot_dict := slot_dict;
            current_required := current_required;
            required_slots := current_required;
            optional_slots := optional_slots; exit_dict := exit_dict;
            chitchat_dict := chitchat_dict; finish_action := finish_action;
            details_intent := details_intent; rules_yaml := rules;
            rules := Some table; subject := subject;
            last_question := None; queue := [] |}
  end.

(** One iteration of the loop of [_update_requirements].
    [slot_tuple in self.rules.keys()] hashes the tuple, hence the value,
    whatever the table holds, and raises [TypeError] on a list or a dict;
    the lookup is by the key of the value. *)
Definition collect (table : rule_table) (acc : list string * list string)
    (slot_tuple : string * pyval) : result (list string * list string) :=
  match key_of slot_tuple.2 with
  | None => Raise TypeError
  | Some k =>
      match table !! (slot_tuple.1, k) with
      | Some (add, take) =>
          Ok (match add with Some a => acc.1 ++ a | None => acc.1 end,
              match take with Some t => acc.2 ++ t | None => acc.2 end)
      | None => Ok acc
      end
  end.

(** The loop: it stops at the first exception. *)
Definition collect_step (table : rule_table)
    (racc : result (list string * list string))
    (slot_tuple : string * pyval) : result (list string * list string) :=
  match racc with
  | Ok acc => collect table acc slot_tuple
  | Raise e => Raise e
  end.

Definition accumulate (table : rule_table) (slots : gmap string pyval)
    : result (list string * list string) :=
  foldl (collect_step table) (Ok ([], [])) (map_to_list slots).

(** An exception in the loop leaves [self.current_required] as it was. *)
Definition _update_requirements (tracker : Tracker) : M unit :=
  let! self := get in
  match rules self with
  | None => ret tt
  | Some table =>
      let! acc := lift (accumulate table (current_slot_values tracker)) in
      modify (set_current_required
        (elements (list_to_set (required_slots self ++ acc.1) ∖
                   list_to_set acc.2 : gset string)))
  end.

Definition check_unfilled_slots (self : SimpleForm) (tracker : Tracker)
    : list string :=
  let current_filled_slots :=
    (filter (fun kv => is_not_None kv.2 = true)
            (map_to_list (current_slot_values tracker))).*1 in
  elements (list_to_set (current_required self) ∖
            list_to_set current_filled_slots : gset string).

(** [_run_through_queue]: [None] for the empty queue; otherwise
    [self.queue.pop(0)] is evaluated first and the domain is asked next. *)
Definition _run_through_queue (domain : Domain) : M (option nat) :=
  let! self := get in
  match queue self with
  | [] => ret None
  | front :: rest =>
      let! _ := modify (set_queue rest) in
      let! idx := lift (index_for_action domain front) in
      ret (Some idx)
  end.

(** [_make_question_queue]: the ask action is looked up under [question],
    the follow-up under [self.last_question]. *)
Definition _make_question_queue (question : option string) : M (list string) :=
  let! self := get in
  let! d := getitem_opt (slot_dict self) question in
  let! ask := getitem d "ask_utt" in
  let queue := [ask; "action_listen"] in
  let! dl := getitem_opt (slot_dict self) (last_question self) in
  match dl !! "follow_up_action" with
  | Some fu => ret (queue ++ [fu])
  | None => ret queue
  end.

(** [np.random.choice(l)] with the random number [rnd]. *)
Definition random_choice (rnd : nat) (l : list string) : M string :=
  match l !! (rnd mod length l)%nat with
  | Some x => ret x
  | None => raise ValueError
  end.

(** The condition of the clarification branch,
    [intent in self.details_intent and
     'utter_explain' not in tracker.latest_action_name]: [in] raises
    [TypeError] on [None], and the right operand is evaluated only when the
    left one holds. *)
Definition clarify_cond (intent : string) (details : option (list string))
    (latest : option string) : result bool :=
  match details with
  | None => Raise TypeError
  | Some l =>
      if bool_decide (intent ∈ l) then
        match latest with
        | Some a => Ok (negb (str_contains "utter_explain" a))
        | None => Raise TypeError
        end
      else Ok false
  end.

Definition QActs (l : list string) : list qitem := QAct <$> l.

(** The intent the branches of [next_action_idx] test:
    [parse_data['intent']['name'].replace('plan_', '', 1)]; [None] has no
    [replace]. *)
Definition intent_of (tracker : Tracker) : result string :=
  match latest_intent_name tracker with
  | Ok (Some name) => Ok (str_replace_first "plan_" EmptyString name)
  | Ok None => Raise AttributeError
  | Raise e => Raise e
  end.

(** [self.queue.append(x)] *)
Definition queue_append (x : qitem) : M unit :=
  modify (fun self => set_queue (queue self ++ [x]) self).

(** The condition of the chitchat branch,
    [intent in self.chitchat_dict.keys() and
     tracker.latest_action_name not in self.chitchat_dict.values()];
    the action [self.chitchat_dict[intent]] when it holds. *)
Definition chitchat_hit (chit_d : gmap string string) (intent : string)
    (latest : option string) : option string :=
  match chit_d !! intent with
  | Some a =>
      match latest with
      | Some l =>
          if bool_decide (l ∈ (map_to_list chit_d).*2) then None else Some a
      | None => Some a
      end
  | None => None
  end.

Definition next_action_idx (tracker : Tracker) (domain : Domain) (rnd : nat)
    : M (option nat) :=
  let! out := _run_through_queue domain in
  match out with
  | Some i => ret (Some i)
  | None =>
    let! intent := lift (intent_of tracker) in
    let! _ := _update_requirements tracker in
    let! self := get in
    let! exit_d := attr (exit_dict self) in
    match exit_d !! intent with
    | Some a =>
        let! _ := modify (set_queue [QAct a]) in
        _run_through_queue domain
    | None =>
      let! chit_d := attr (chitchat_dict self) in
      match chitchat_hit chit_d intent (latest_action_name tracker) with
      | Some a =>
          let! _ := modify (set_queue [QAct a]) in
          let! q := _make_question_queue (last_question self) in
          let! _ := queue_append (QList q) in
          _run_through_queue domain
      | None =>
        let! clarify := lift (clarify_cond intent (details_intent self)
                                (latest_action_name tracker)) in
        if clarify then
          let! d := getitem_opt (slot_dict self) (last_question self) in
          let! c := getitem d "clarify_utt" in
          let! _ := modify (set_queue [QAct c]) in
          let! q := _make_question_queue (last_question self) in
          let! _ := queue_append (QList q) in
          _run_through_queue domain
        else
          let still_to_ask := check_unfilled_slots self tracker in
          if (length still_to_ask =? 0)%nat then
            let! _ := modify (set_queue [QAct (finish_action self); QAct "action_listen"]) in
            _run_through_queue domain
          else
            let! chosen := random_choice rnd still_to_ask in
            let! _ := modify (set_last_question (Some chosen)) in
            let! q := _make_question_queue (Some chosen) in
            let! _ := modify (set_queue (QActs q)) in
            _run_through_queue domain
      end
    end
  end.

(** ** [PlanComplete] *)

Inductive Event : Type :=
| EndPlan
| SlotSet (key : string) (value : pyval).

(** [PlanComplete.run]; the tracker is threaded through to record that the
    method assigns to nothing. *)
Definition PlanComplete_run (tracker : Tracker) : result (list Event) * Tracker :=
  match active_plan tracker with
  | None => (Raise AttributeError, tracker)
  | Some plan =>
      let unfilled := check_unfilled_slots plan tracker in
      let complete := if (length unfilled =? 0)%nat then true else false in
      (Ok [EndPlan; SlotSet "active_plan" (PBool false);
           SlotSet "plan_complete" (PBool complete)], tracker)
  end.

(** The plan instance after [self._update_requirements(tracker)]. *)
Definition updated (tracker : Tracker) (self : SimpleForm) : SimpleForm :=
  (_update_requirements tracker self).2.

(** The follow-up entry of a slot's declaration, as a list of length 0 or 1. *)
Definition follow_up (d : gmap string string) : list string :=
  match d !! "follow_up_action" with
  | Some fu => [fu]
  | None => []
  end.

(** ** The requirement resolver as the specification words it

    "For every (slot, value) pair currently present with a non-empty value
    in the tracker, if that pair is a key in rule_table, union its add list
    into an accumulator-to-add and union its remove list into an
    accumulator-to-remove.  Result = (base_required ∪ accumulator_to_add) −
    accumulator_to_remove." *)
Definition spec_recompute (base_required : list string) (table : rule_table)
    (slots : gmap string pyval) : gset string :=
  let present :=
    filter (fun kv => is_not_None kv.2 = true) (map_to_list slots) in
  let hits :=
    omap (fun kv => key_of kv.2 ≫= fun k => table !! (kv.1, k)) present in
  let accumulator_to_add := mjoin ((fun e => default [] e.1) <$> hits) in
  let accumulator_to_remove := mjoin ((fun e => default [] e.2) <$> hits) in
  (list_to_set base_required ∪ list_to_set accumulator_to_add) ∖
  list_to_set accumulator_to_remove.

(** [x] is in the add list (resp. the remove list) of a rule whose key is a
    [(slot, value)] pair of the tracker, found as a dict finds it. *)
Definition adds_of (table : rule_table) (slots : gmap string pyval)
    (x : string) : Prop :=
  exists slot value key add take,
    slots !! slot = Some value /\ key_of value = Some key /\
    table !! (slot, key) = Some (Some add, take) /\ x ∈ add.

Definition removes_of (table : rule_table) (slots : gmap string pyval)
    (x : string) : Prop :=
  exists slot value key add take,
    slots !! slot = Some value /\ key_of value = Some key /\
    table !! (slot, key) = Some (add, Some take) /\ x ∈ take.

(** Every slot value of the tracker can be hashed. *)
Definition hashable_slots (slots : gmap string pyval) : Prop :=
  forall slot value, slots !! slot = Some value -> is_Some (key_of value).

(** ** A domain registry for the examples *)

Fixpoint list_index (a : string) (l : list string) : option nat :=
  match l with
  | [] => None
  | x :: l' => if decide (x = a) then Some 0%nat else S <$> list_index a l'
  end.

(** Modelled from the spec: [Domain.index_for_action] is not in this
    module.  "index_for_action(name: string) -> integer, fails with
    NotFound if unknown": the index of the name among the registered action
    names; anything that is not a registered name, a nested list included,
    raises. *)
Definition list_domain (action_names : list string) : Domain :=
  {| index_for_action := fun q =>
       match q with
       | QAct a =>
           match list_index a action_names with
           | Some i => Ok i
           | None => Raise DomainError
           end
       | QList _ => Raise DomainError
       end |}.

(** ** A booking plan used in the examples *)

Definition ex_origin_decl : gmap string string :=
  <["ask_utt" := "utter_ask_origin"]>
  (<["follow_up_action" := "action_check_origin"]>
  (<["clarify_utt" := "utter_explain_origin"]> ∅)).

Definition ex_destination_decl : gmap string string :=
  <["ask_utt" := "utter_ask_destination"]> ∅.

Definition ex_slot_dict : gmap string (gmap string string) :=
  <["origin" := ex_origin_decl]> (<["destination" := ex_destination_decl]> ∅).

Definition ex_exit_dict : gmap string string :=
  <["cancel" := "action_cancel_booking"]> ∅.

Definition ex_chitchat_dict : gmap string string :=
  <["cancel" := "utter_chitchat_cancel"]> (<["weather" := "utter_weather"]> ∅).

Definition ex_domain : Domain :=
  list_domain ["action_listen"; "utter_ask_origin"; "utter_ask_destination";
               "action_check_origin"; "utter_explain_origin";
               "action_cancel_booking"; "utter_chitchat_cancel";
               "utter_weather"; "action_book"].

(** The plan as the constructor leaves it, given an empty rule mapping. *)
Definition ex_form : SimpleForm :=
  {| name := "booking"; slot_dict := ex_slot_dict;
     current_required := ["origin"; "destination"];
     required_slots := ["origin"; "destination"];
     optional_slots := None; exit_dict := Some ex_exit_dict;
     chitchat_dict := Some ex_chitchat_dict; finish_action := "action_book";
     details_intent := Some ["cancel"; "explain"]; rules_yaml := Some ∅;
     rules := Some ∅; subject := None;
     last_question := None; queue := [] |}.

(** The same plan once [origin] has been asked. *)
Definition ex_form_asked : SimpleForm := set_last_question (Some "origin") ex_form.

Definition ex_tracker (slots : gmap string pyval) (intent latest : string) : Tracker :=
  {| current_slot_values := slots; latest_intent_name := Ok (Some intent);
     latest_action_name := Some latest; active_plan := None |}.

(** ** A newsletter plan: a rule keyed by the null value *)

Definition ex_null_rules : rules_spec :=
  <["newsletter" := <[KNone := <["need" := ["email"]]> ∅]> ∅]> ∅.

Definition ex_null_table : rule_table :=
  <[("newsletter", KNone) := (Some ["email"], None)]> ∅.

Definition ex_null_form : SimpleForm :=
  {| name := "subscribe";
     slot_dict := <["newsletter" := <["ask_utt" := "utter_ask_newsletter"]> ∅]> ∅;
     current_required := ["newsletter"];
     required_slots := ["newsletter"];
     optional_slots := Some ["email"]; exit_dict := Some ∅;
     chitchat_dict := Some ∅; finish_action := "action_subscribe";
     details_intent := Some []; rules_yaml := Some ex_null_rules;
     rules := Some ex_null_table; subject := None;
     last_question := None; queue := [] |}.

Definition ex_null_tracker : Tracker :=
  ex_tracker (<["newsletter" := PNone]> ∅) "subscribe" "action_listen".

(** ** A car rental plan: a rule that removes a requirement

    [has_car] declares the follow-up ['deactivate_plan'], the name of the
    action [PlanComplete]; answering [no] to it makes [license] no longer
    required. *)

Definition ex_car_slot_dict : gmap string (gmap string string) :=
  <["has_car" := <["ask_utt" := "utter_ask_has_car"]>
                 (<["follow_up_action" := "deactivate_plan"]> ∅)]>
  (<["license" := <["ask_utt" := "utter_ask_license"]> ∅]> ∅).

Definition ex_car_rules : rules_spec :=
  <["has_car" := <[KStr "no" := <["lose" := ["license"]]> ∅]> ∅]> ∅.

Definition ex_car_domain : Domain :=
  list_domain ["action_listen"; "utter_ask_has_car"; "utter_ask_license";
               "deactivate_plan"; "action_rent"].

Definition ex_car_form : SimpleForm :=
  {| name := "car_rental"; slot_dict := ex_car_slot_dict;
     current_required := ["license"; "has_car"];
     required_slots := ["license"; "has_car"];
     optional_slots := None; exit_dict := Some ∅;
     chitchat_dict := Some ∅; finish_action := "action_rent";
     details_intent := Some []; rules_yaml := Some ex_car_rules;
     rules := Some (<[("has_car", KStr "no") := (None, Some ["license"])]> ∅);
     subject := None; last_question := None; queue := [] |}.

(** The turns of a conversation: the plan asks [has_car] (first call),
    listens (second call), the user answers [no], and the third call drains
    the follow-up ['deactivate_plan'] from the queue. *)
Definition ex_car_tracker_start : Tracker :=
  ex_tracker ∅ "plan_rent_car" "action_listen".

Definition ex_car_tracker_answered (plan : option SimpleForm) : Tracker :=
  {| current_slot_values := <["has_car" := PStr "no"]> ∅;
     latest_intent_name := Ok (Some "plan_inform");
     latest_action_name := Some "action_listen";
     active_plan := plan |}.

Definition ex_car_turn1 : result (option nat) * SimpleForm :=
  next_action_idx ex_car_tracker_start ex_car_domain 1 ex_car_form.

Definition ex_car_turn2 : result (option nat) * SimpleForm :=
  next_action_idx ex_car_tracker_start ex_car_domain 0 ex_car_turn1.2.

Definition ex_car_turn3 : result (option nat) * SimpleForm :=
  next_action_idx (ex_car_tracker_answered None) ex_car_domain 0 ex_car_turn2.2.

(** A rule of the car rental plan that needs [insurance], a slot declared
    neither in [slot_dict] nor in [optional_slots]. *)
Definition ex_undeclared_rules : rules_spec :=
  <["has_car" := <[KStr "yes" := <["need" := ["insurance"]]> ∅]> ∅]> ∅.

Definition ex_undeclared_tracker : Tracker :=
  ex_tracker (<["has_car" := PStr "yes"]> ∅) "plan_inform" "action_listen".

(** The booking plan in the middle of a response sequence. *)
Definition ex_form_queued : SimpleForm :=
  set_queue [QAct "action_listen"; QAct "action_check_origin"] ex_form_asked.

(** ** [as_dict] *)

(** The dict [as_dict] returns: one field per key.  The key
    ['required_slots'] holds [self.slot_dict] and the key ['rules'] holds
    the rule mapping as it was given, not the compiled table. *)
Record PlanDict : Type := mkPlanDict {
  d_name : string;
  d_required_slots : gmap string (gmap string string);
  d_optional_slots : option (list string);
  d_finish_action : string;
  d_exit_dict : option (gmap string string);
  d_chitchat_dict : option (gmap string string);
  d_details_intent : option (list string);
  d_rules : option rules_spec;
  d_subject : option string
}.

Definition as_dict (self : SimpleForm) : PlanDict :=
  {| d_name := name self;
     d_required_slots := slot_dict self;
     d_optional_slots := optional_slots self;
     d_finish_action := finish_action self;
     d_exit_dict := exit_dict self;
     d_chitchat_dict := chitchat_dict self;
     d_details_intent := details_intent self;
     d_rules := rules_yaml self;
     d_subject := subject self |}.

(** ** Reasoning about the methods *)

(** [holds c self Q]: running [c] on [self] ends, with a value or an
    exception, in an outcome that satisfies [Q]. *)
Definition holds {A} (c : M A) (self : SimpleForm)
    (Q : result A -> SimpleForm -> Prop) : Prop :=
  Q (c self).1 (c self).2.

(** A host that calls [next_action_idx] once per turn: each turn supplies
    the tracker of that turn and a random number; an exception ends the
    turn, not the conversation. *)
Fixpoint run_turns (domain : Domain) (turns : list (Tracker * nat))
    (self : SimpleForm) : list (result (option nat)) * SimpleForm :=
  match turns with
  | [] => ([], self)
  | turn :: turns' =>
      let out := next_action_idx turn.1 domain turn.2 self in
      let outs := run_turns domain turns' out.2 in
      (out.1 :: outs.1, outs.2)
  end.

(** [self.chitchat_dict = v], used to compare two plans. *)
Definition set_chitchat_dict (v : option (gmap string string))
    (self : SimpleForm) : SimpleForm :=
  {| name := name self; slot_dict := slot_dict self;
     current_required := current_required self;
     required_slots := required_slots self;
     optional_slots := optional_slots self; exit_dict := exit_dict self;
     chitchat_dict := v; finish_action := finish_action self;
     details_intent := details_intent self; rules_yaml := rules_yaml self;
     rules := rules self; subject := subject self;
     last_question := last_question self; queue := queue self |}.

(** What a call of [next_action_idx] on an empty queue may leave, relative
    to the plan [s1] as [_update_requirements] left it: only the queue and
    [last_question] differ from [s1], the queue holds at most two entries,
    the call did not return [None], and [last_question] is either the old
    one or a slot that was required and unfilled. *)
Definition idle_outcome (tracker : Tracker) (s1 : SimpleForm)
    (r : result (option nat)) (s' : SimpleForm) : Prop :=
  as_dict s' = as_dict s1 /\
  required_slots s' = required_slots s1 /\
  rules s' = rules s1 /\
  current_required s' = current_required s1 /\
  (length (queue s') <= 2)%nat /\
  r <> Ok None /\
  (last_question s' = last_question s1 \/
   exists chosen, last_question s' = Some chosen /\
     chosen ∈ check_unfilled_slots s1 tracker).

(** [c] does not look at [chitchat_dict]: run on a plan with another
    [chitchat_dict] it gives the same result and the same plan but for
    that field. *)
Definition ignores_chitchat_dict {A} (c : M A) : Prop :=
  forall v self,
    c (set_chitchat_dict v self) = ((c self).1, set_chitchat_dict v (c self).2).

(** A plan built with the constructor's defaults for [exit_dict],
    [chitchat_dict] and [details_intent]. *)
Definition ex_form_defaults : SimpleForm :=
  {| name := "booking"; slot_dict := ex_slot_dict;
     current_required := ["origin"; "destination"];
     required_slots := ["origin"; "destination"];
     optional_slots := None; exit_dict := None;
     chitchat_dict := None; finish_action := "action_book";
     details_intent := None; rules_yaml := Some ∅;
     rules := Some ∅; subject := None;
     last_question := None; queue := [] |}.

(** What [next_action_idx] runs once the exit and chitchat tests have failed,
    for the plan [s1] read after the recomputation. *)
Abbreviation decision_tail tracker domain rnd intent s1 :=
  (let! clarify := lift (clarify_cond intent (details_intent s1)
                           (latest_action_name tracker)) in
   if clarify then
     let! d := getitem_opt (slot_dict s1) (last_question s1) in
     let! c := getitem d "clarify_utt" in
     let! _ := modify (set_queue [QAct c]) in
     let! q := _make_question_queue (last_question s1) in
     let! _ := queue_append (QList q) in
     _run_through_queue domain
   else
     if Nat.eqb (length (check_unfilled_slots s1 tracker)) 0 then
       let! _ := modify (set_queue [QAct (finish_action s1);
                                    QAct "action_listen"]) in
       _run_through_queue domain
     else
       let! chosen := random_choice rnd (check_unfilled_slots s1 tracker) in
       let! _ := modify (set_last_question (Some chosen)) in
       let! q := _make_question_queue (Some chosen) in
       let! _ := modify (set_queue (QActs q)) in
       _run_through_queue domain).

(** What [next_action_idx] runs after the recomputation, for the intent
    read and the plan [s1] read after the recomputation. *)
Abbreviation decision tracker domain rnd intent s1 :=
  (let! exit_d := attr (exit_dict s1) in
   match exit_d !! intent with
   | Some a =>
       let! _ := modify (set_queue [QAct a]) in
       _run_through_queue domain
   | None =>
     let! chit_d := attr (chitchat_dict s1) in
     match chitchat_hit chit_d intent (latest_action_name tracker) with
     | Some a =>
         let! _ := modify (set_queue [QAct a]) in
         let! q := _make_question_queue (last_question s1) in
         let! _ := queue_append (QList q) in
         _run_through_queue domain
     | None => decision_tail tracker domain rnd intent s1
     end
   end).

(** The recomputation returns: no exception in the loop. *)
Definition recomputation_returns (tracker : Tracker) (self : SimpleForm) : Prop :=
  (_update_requirements tracker self).1 = Ok tt.

(** ** A tracker with a list-valued slot *)

Definition ex_list_tracker (intent : string) : Tracker :=
  ex_tracker (<["origin" := PList [PStr "Paris"; PStr "Lyon"]]> ∅)
             intent "action_listen".

(** ** A membership plan: a rule keyed by [True], a slot in both lists *)

Definition ex_member_rules : rules_spec :=
  <["member" := <[KNum 1 := <["need" := ["member_id"]]>
                            (<["lose" := ["email"]]> ∅)]> ∅]>
  (<["guest" := <[KStr "yes" := <["lose" := ["member_id"]]> ∅]> ∅]> ∅).

Definition ex_member_form : SimpleForm :=
  {| name := "signup";
     slot_dict :=
       <["member" := <["ask_utt" := "utter_ask_member"]> ∅]>
       (<["guest" := <["ask_utt" := "utter_ask_guest"]> ∅]>
       (<["email" := <["ask_utt" := "utter_ask_email"]> ∅]> ∅));
     current_required := ["guest"; "member"; "email"];
     required_slots := ["guest"; "member"; "email"];
     optional_slots := Some ["member_id"]; exit_dict := Some ∅;
     chitchat_dict := Some ∅; finish_action := "action_signup";
     details_intent := Some []; rules_yaml := Some ex_member_rules;
     rules := Some (process_rules_dict ex_member_rules); subject := None;
     last_question := None; queue := [] |}.

(** [member] holds the integer [1], which a dict finds under the key
    [True]. *)
Definition ex_member_tracker : Tracker :=
  ex_tracker (<["member" := PInt 1]> (<["guest" := PStr "yes"]> ∅))
             "plan_inform" "action_listen".

(** * Properties *)

(** ** The monad and the queue *)

Lemma bind_Ok {A B} (c : M A) (k : A -> M B) self a self' :
  c self = (Ok a, self') -> bind c k self = k a self'.
Proof. intros Hc. unfold bind. rewrite Hc. reflexivity. Qed.

Lemma bind_Raise {A B} (c : M A) (k : A -> M B) self e self' :
  c self = (Raise e, self') -> bind c k self = (Raise e, self').
Proof. intros Hc. unfold bind. rewrite Hc. reflexivity. Qed.

Lemma run_through_queue_nil domain self :
  queue self = [] -> _run_through_queue domain self = (Ok None, self).
Proof.
  intros Hq. unfold _run_through_queue, bind, get. rewrite Hq. reflexivity.
Qed.

Lemma run_through_queue_cons domain self front rest :
  queue self = front :: rest ->
  _run_through_queue domain self =
    (result_map Some (index_for_action domain front), set_queue rest self).
Proof.
  intros Hq. unfold _run_through_queue, bind, get, modify, lift, ret.
  rewrite Hq. simpl. destruct (index_for_action domain front); reflexivity.
Qed.

(** ** Outcomes of the methods *)

Lemma holds_bind {A B} (c : M A) (k : A -> M B) self Q :
  holds c self (fun r self' =>
    match r with
    | Ok a => holds (k a) self' Q
    | Raise e => Q (Raise e) self'
    end) ->
  holds (bind c k) self Q.
Proof.
  unfold holds, bind. destruct (c self) as [[a|e] self']; simpl; auto.
Qed.

Lemma holds_eq {A} (c : M A) self r self' :
  holds c self (fun r0 s0 => r0 = r /\ s0 = self') -> c self = (r, self').
Proof.
  unfold holds. destruct (c self) as [r0 s0]. simpl. intros [-> ->]. reflexivity.
Qed.

Lemma holds_ret {A} (a : A) self (Q : result A -> SimpleForm -> Prop) :
  Q (Ok a) self -> holds (ret a) self Q.
Proof. auto. Qed.

Lemma holds_raise {A} e self (Q : result A -> SimpleForm -> Prop) :
  Q (Raise e) self -> holds (raise e) self Q.
Proof. auto. Qed.

Lemma holds_get self (Q : result SimpleForm -> SimpleForm -> Prop) :
  Q (Ok self) self -> holds get self Q.
Proof. auto. Qed.

Lemma holds_modify f self (Q : result unit -> SimpleForm -> Prop) :
  Q (Ok tt) (f self) -> holds (modify f) self Q.
Proof. auto. Qed.

Lemma holds_lift {A} (r : result A) self (Q : result A -> SimpleForm -> Prop) :
  Q r self -> holds (lift r) self Q.
Proof. auto. Qed.

Lemma holds_attr {A} (x : option A) self (Q : result A -> SimpleForm -> Prop) :
  match x with
  | Some a => Q (Ok a) self
  | None => Q (Raise AttributeError) self
  end ->
  holds (attr x) self Q.
Proof. destruct x; auto. Qed.

Lemma holds_getitem {V} (d : gmap string V) k self
    (Q : result V -> SimpleForm -> Prop) :
  match d !! k with
  | Some v => Q (Ok v) self
  | None => Q (Raise KeyError) self
  end ->
  holds (getitem d k) self Q.
Proof. unfold getitem. destruct (d !! k); auto. Qed.

Lemma holds_getitem_opt {V} (d : gmap string V) k self
    (Q : result V -> SimpleForm -> Prop) :
  match k ≫= (d !!.) with
  | Some v => Q (Ok v) self
  | None => Q (Raise KeyError) self
  end ->
  holds (getitem_opt d k) self Q.
Proof.
  unfold getitem_opt, getitem. destruct k as [k|]; simpl; [|auto].
  destruct (d !! k); auto.
Qed.

Lemma holds_random_choice rnd l self (Q : result string -> SimpleForm -> Prop) :
  match l !! (rnd mod length l)%nat with
  | Some x => Q (Ok x) self
  | None => Q (Raise ValueError) self
  end ->
  holds (random_choice rnd l) self Q.
Proof. unfold random_choice. destruct (l !! _); auto. Qed.

Lemma holds_run_through_queue domain self
    (Q : result (option nat) -> SimpleForm -> Prop) :
  match queue self with
  | [] => Q (Ok None) self
  | front :: rest =>
      Q (result_map Some (index_for_action domain front)) (set_queue rest self)
  end ->
  holds (_run_through_queue domain) self Q.
Proof.
  unfold holds. destruct (queue self) as [|front rest] eqn:Hq.
  - rewrite (run_through_queue_nil domain self Hq). auto.
  - rewrite (run_through_queue_cons domain self front rest Hq). auto.
Qed.

(** [_make_question_queue] assigns to nothing; it returns the ask action,
    ['action_listen'] and the follow-up of [self.last_question], or raises
    [KeyError]. *)
Lemma holds_make_question_queue question self
    (Q : result (list string) -> SimpleForm -> Prop) :
  match question ≫= (slot_dict self !!.) with
  | Some d =>
      match d !! "ask_utt" with
      | Some ask =>
          match last_question self ≫= (slot_dict self !!.) with
          | Some dl => Q (Ok ([ask; "action_listen"] ++ follow_up dl)) self
          | None => Q (Raise KeyError) self
          end
      | None => Q (Raise KeyError) self
      end
  | None => Q (Raise KeyError) self
  end ->
  holds (_make_question_queue question) self Q.
Proof.
  intros H. unfold _make_question_queue.
  apply holds_bind, holds_get. apply holds_bind, holds_getitem_opt.
  destruct (question ≫= (slot_dict self !!.)) as [d|]; [|exact H].
  apply holds_bind, holds_getitem.
  destruct (d !! "ask_utt") as [ask|]; [|exact H].
  apply holds_bind, holds_getitem_opt.
  destruct (last_question self ≫= (slot_dict self !!.)) as [dl|]; [|exact H].
  unfold follow_up in H. destruct (dl !! "follow_up_action"); exact H.
Qed.

Lemma length_follow_up d : (length (follow_up d) <= 1)%nat.
Proof. unfold follow_up. destruct (d !! "follow_up_action"); simpl; lia. Qed.

Lemma result_map_Some_not_None (r : result nat) : result_map Some r <> Ok None.
Proof. destruct r; discriminate. Qed.

(** ** The recomputation as a step *)

(** [_update_requirements] assigns to [self.current_required] only. *)
Lemma updated_frame tracker self :
  updated tracker self =
    set_current_required (current_required (updated tracker self)) self.
Proof.
  unfold updated, _update_requirements, bind, get, modify, lift. simpl.
  destruct (rules self); simpl; [|destruct self; reflexivity].
  destruct (accumulate _ _); simpl; [reflexivity | destruct self; reflexivity].
Qed.

Lemma update_requirements_returns tracker self :
  recomputation_returns tracker self ->
  _update_requirements tracker self = (Ok tt, updated tracker self).
Proof.
  unfold recomputation_returns, updated. intros H.
  rewrite (surjective_pairing (_update_requirements tracker self)) at 1.
  rewrite H. reflexivity.
Qed.

(** When the loop raises, nothing has been assigned. *)
Lemma update_requirements_raises tracker self e :
  (_update_requirements tracker self).1 = Raise e ->
  _update_requirements tracker self = (Raise e, self).
Proof.
  unfold _update_requirements, bind, get, modify, lift, ret. simpl.
  destruct (rules self); simpl; [|discriminate].
  destruct (accumulate _ _); simpl; [discriminate|].
  intros [= ->]. reflexivity.
Qed.

Lemma updated_raises tracker self e :
  (_update_requirements tracker self).1 = Raise e -> updated tracker self = self.
Proof.
  intros H. unfold updated. rewrite (update_requirements_raises _ _ _ H).
  reflexivity.
Qed.

Lemma update_requirements_result tracker self :
  (_update_requirements tracker self).1 = Ok tt \/
  exists e, (_update_requirements tracker self).1 = Raise e.
Proof.
  destruct (_update_requirements tracker self).1 as [[]|e]; eauto.
Qed.

Lemma updated_queue tracker self : queue (updated tracker self) = queue self.
Proof. rewrite updated_frame. reflexivity. Qed.

Lemma updated_exit_dict tracker self :
  exit_dict (updated tracker self) = exit_dict self.
Proof. rewrite updated_frame. reflexivity. Qed.

Lemma updated_chitchat_dict tracker self :
  chitchat_dict (updated tracker self) = chitchat_dict self.
Proof. rewrite updated_frame. reflexivity. Qed.

Lemma updated_details_intent tracker self :
  details_intent (updated tracker self) = details_intent self.
Proof. rewrite updated_frame. reflexivity. Qed.

Lemma updated_slot_dict tracker self :
  slot_dict (updated tracker self) = slot_dict self.
Proof. rewrite updated_frame. reflexivity. Qed.

Lemma updated_last_question tracker self :
  last_question (updated tracker self) = last_question self.
Proof. rewrite updated_frame. reflexivity. Qed.

Lemma updated_finish_action tracker self :
  finish_action (updated tracker self) = finish_action self.
Proof. rewrite updated_frame. reflexivity. Qed.

(** When the name starts with ['plan_'] the replacement strips that prefix. *)
Lemma intent_of_prefixed tracker rest :
  latest_intent_name tracker = Ok (Some ("plan_" +:+ rest)) ->
  intent_of tracker = Ok rest.
Proof. intros H. unfold intent_of. rewrite H. destruct rest; reflexivity. Qed.

(** ** Draining *)

Lemma next_action_idx_cons tracker domain rnd self front rest :
  queue self = front :: rest ->
  next_action_idx tracker domain rnd self =
    (result_map Some (index_for_action domain front), set_queue rest self).
Proof.
  intros Hq. unfold next_action_idx.
  pose proof (run_through_queue_cons domain self front rest Hq) as Hrun.
  destruct (index_for_action domain front) as [i|e]; simpl in Hrun.
  - rewrite (bind_Ok _ _ _ _ _ Hrun). reflexivity.
  - rewrite (bind_Raise _ _ _ _ _ Hrun). reflexivity.
Qed.

(** C2.  Called with a non-empty queue, [next_action_idx] answers with what
    the domain registry gives for the front entry (its index, or the
    registry's exception) and leaves the plan instance as it was but for
    the queue, which has lost exactly its front entry: [last_question],
    [current_required] and the order of the other entries are unchanged.
    The tracker and the random choice have no part in the outcome, so no
    intent is read, no requirement recomputed and no branch selected. *)
Theorem next_action_idx_draining tracker domain rnd self front rest :
  queue self = front :: rest ->
  let out := next_action_idx tracker domain rnd self in
  out.1 = result_map Some (index_for_action domain front) /\
  out.2 = set_queue rest self /\
  queue out.2 = rest /\
  last_question out.2 = last_question self /\
  current_required out.2 = current_required self /\
  (forall i, index_for_action domain front = Ok i -> out.1 = Ok (Some i)) /\
  (forall tracker' rnd',
     next_action_idx tracker' domain rnd' self = out).
Proof.
  intros Hq out. subst out.
  rewrite (next_action_idx_cons tracker domain rnd self front rest Hq). simpl.
  repeat split; try reflexivity.
  - intros i Hi. rewrite Hi. reflexivity.
  - intros tracker' rnd'. apply next_action_idx_cons, Hq.
Qed.

(** ** The start of a decision *)

(** On an empty queue the call reads the intent first; when that raises,
    nothing else happens. *)
Lemma next_action_idx_intent_raises_eq tracker domain rnd self e :
  queue self = [] ->
  intent_of tracker = Raise e ->
  next_action_idx tracker domain rnd self = (Raise e, self).
Proof.
  intros Hq Hint. apply holds_eq. unfold next_action_idx.
  apply holds_bind. unfold holds at 1.
  rewrite (run_through_queue_nil domain self Hq). simpl.
  apply holds_bind, holds_lift. rewrite Hint. split; reflexivity.
Qed.

(** Next comes the recomputation; when it raises, the plan is as before. *)
Lemma next_action_idx_update_raises_eq tracker domain rnd self intent e :
  queue self = [] ->
  intent_of tracker = Ok intent ->
  (_update_requirements tracker self).1 = Raise e ->
  next_action_idx tracker domain rnd self = (Raise e, self).
Proof.
  intros Hq Hint Hup. apply holds_eq. unfold next_action_idx.
  apply holds_bind. unfold holds at 1.
  rewrite (run_through_queue_nil domain self Hq). simpl.
  apply holds_bind, holds_lift. rewrite Hint.
  apply holds_bind. unfold holds at 1.
  rewrite (update_requirements_raises tracker self e Hup). simpl.
  split; reflexivity.
Qed.

(** Otherwise the branches are tried on the plan the recomputation left. *)
Lemma next_action_idx_decision tracker domain rnd self intent Q :
  queue self = [] ->
  intent_of tracker = Ok intent ->
  recomputation_returns tracker self ->
  holds (decision tracker domain rnd intent (updated tracker self))
        (updated tracker self) Q ->
  holds (next_action_idx tracker domain rnd) self Q.
Proof.
  intros Hq Hint Hup H. unfold next_action_idx.
  apply holds_bind. unfold holds at 1.
  rewrite (run_through_queue_nil domain self Hq). simpl.
  apply holds_bind, holds_lift. rewrite Hint.
  apply holds_bind. unfold holds at 1.
  rewrite (update_requirements_returns tracker self Hup). simpl.
  apply holds_bind, holds_get. exact H.
Qed.

(** ... and, past the exit and chitchat tests, on the rest. *)
Lemma next_action_idx_past_chitchat tracker domain rnd self intent exit_d
    chit_d Q :
  queue self = [] ->
  intent_of tracker = Ok intent ->
  recomputation_returns tracker self ->
  exit_dict self = Some exit_d ->
  exit_d !! intent = None ->
  chitchat_dict self = Some chit_d ->
  chitchat_hit chit_d intent (latest_action_name tracker) = None ->
  holds (decision_tail tracker domain rnd intent (updated tracker self))
        (updated tracker self) Q ->
  holds (next_action_idx tracker domain rnd) self Q.
Proof.
  intros Hq Hint Hup Hexit Hne Hchit Hhit H.
  apply (next_action_idx_decision tracker domain rnd self intent);
    try assumption.
  apply holds_bind, holds_attr. rewrite updated_exit_dict, Hexit, Hne.
  apply holds_bind, holds_attr. rewrite updated_chitchat_dict, Hchit, Hhit.
  exact H.
Qed.

(** ** The exit branch *)

Lemma next_action_idx_exit_eq tracker domain rnd self intent exit_d a :
  queue self = [] ->
  intent_of tracker = Ok intent ->
  recomputation_returns tracker self ->
  exit_dict self = Some exit_d ->
  exit_d !! intent = Some a ->
  next_action_idx tracker domain rnd self =
    (result_map Some (index_for_action domain (QAct a)),
     set_queue [] (updated tracker self)).
Proof.
  intros Hq Hint Hup Hexit Ha. apply holds_eq.
  apply (next_action_idx_decision tracker domain rnd self intent);
    try assumption.
  apply holds_bind, holds_attr. rewrite updated_exit_dict, Hexit, Ha.
  apply holds_bind, holds_modify. apply holds_run_through_queue. simpl.
  split; reflexivity.
Qed.




Lemma next_action_idx_draining_witness :
  let out := next_action_idx (ex_tracker ∅ "plan_cancel" "action_listen")
               ex_domain 0 ex_form_queued in
  out.1 = result_map Some (index_for_action ex_domain (QAct "action_listen")) /\
  out.2 = set_queue [QAct "action_check_origin"] ex_form_queued /\
  queue out.2 = [QAct "action_check_origin"] /\
  last_question out.2 = last_question ex_form_queued /\
  current_required out.2 = current_required ex_form_queued /\
  (forall i, index_for_action ex_domain (QAct "action_listen") = Ok i ->
             out.1 = Ok (Some i)) /\
  (forall tracker' rnd',
     next_action_idx tracker' ex_domain rnd' ex_form_queued = out).
Proof.
  apply (next_action_idx_draining (ex_tracker ∅ "plan_cancel" "action_listen")
           ex_domain 0%nat ex_form_queued (QAct "action_listen")
           [QAct "action_check_origin"]).
  reflexivity.
Defined.

(** ** The question queue *)

Lemma make_question_queue_eq self question lq d ask dl :
  slot_dict self !! question = Some d ->
  d !! "ask_utt" = Some ask ->
  last_question self = Some lq ->
  slot_dict self !! lq = Some dl ->
  _make_question_queue (Some question) self =
    (Ok ([ask; "action_listen"] ++ follow_up dl), self).
Proof.
  intros Hd Hask Hlq Hdl.
  unfold _make_question_queue, bind, get, getitem_opt, getitem, ret, follow_up.
  rewrite Hd, Hask, Hlq, Hdl.
  destruct (dl !! "follow_up_action"); reflexivity.
Qed.

(** C4 as stated fails when a follow-up is declared: the queue then ends
    with the follow-up action, not with ['action_listen']. *)
Lemma make_question_queue_last_not_listen :
  _make_question_queue (Some "origin") ex_form_asked =
    (Ok ["utter_ask_origin"; "action_listen"; "action_check_origin"],
     ex_form_asked) /\
  last ["utter_ask_origin"; "action_listen"; "action_check_origin"]
    <> Some "action_listen".
Proof. split; [vm_compute; reflexivity | discriminate]. Qed.

(** C4, amended.  For a slot with a declared ask action, the queue built by
    [_make_question_queue] starts with the ask action followed by
    ['action_listen']; it has length 2 and ends with ['action_listen'] when
    no follow-up is declared, and has length 3 (never more) and ends with
    the follow-up action when one is.  The follow-up is read from the
    declaration of [self.last_question]. *)
Theorem make_question_queue_shape self question lq d ask dl :
  slot_dict self !! question = Some d ->
  d !! "ask_utt" = Some ask ->
  last_question self = Some lq ->
  slot_dict self !! lq = Some dl ->
  exists q,
    _make_question_queue (Some question) self = (Ok q, self) /\
    q !! 0%nat = Some ask /\
    q !! 1%nat = Some "action_listen" /\
    (dl !! "follow_up_action" = None ->
       length q = 2%nat /\ last q = Some "action_listen") /\
    (forall fu, dl !! "follow_up_action" = Some fu ->
       length q = 3%nat /\ last q = Some fu).
Proof.
  intros Hd Hask Hlq Hdl.
  exists ([ask; "action_listen"] ++ follow_up dl).
  split; [exact (make_question_queue_eq _ _ _ _ _ _ Hd Hask Hlq Hdl)|].
  unfold follow_up. destruct (dl !! "follow_up_action") as [fu|]; simpl.
  - split; [reflexivity | split; [reflexivity | split]].
    + intros Hnone. discriminate Hnone.
    + intros fu' Hfu. injection Hfu as <-. split; reflexivity.
  - split; [reflexivity | split; [reflexivity | split]].
    + intros _. split; reflexivity.
    + intros fu' Hfu. discriminate Hfu.
Qed.

Lemma make_question_queue_shape_witness :
  exists q,
    _make_question_queue (Some "origin") ex_form_asked = (Ok q, ex_form_asked) /\
    q !! 0%nat = Some "utter_ask_origin" /\
    q !! 1%nat = Some "action_listen" /\
    (ex_origin_decl !! "follow_up_action" = None ->
       length q = 2%nat /\ last q = Some "action_listen") /\
    (forall fu, ex_origin_decl !! "follow_up_action" = Some fu ->
       length q = 3%nat /\ last q = Some fu).
Proof.
  apply (make_question_queue_shape ex_form_asked "origin" "origin"
           ex_origin_decl "utter_ask_origin" ex_origin_decl);
    vm_compute; reflexivity.
Defined.

(** ** The chitchat branch *)

(** ** The chitchat branch *)

Lemma next_action_idx_chitchat_eq tracker domain rnd self intent exit_d chit_d
    a lq d ask :
  queue self = [] ->
  intent_of tracker = Ok intent ->
  recomputation_returns tracker self ->
  exit_dict self = Some exit_d ->
  exit_d !! intent = None ->
  chitchat_dict self = Some chit_d ->
  chitchat_hit chit_d intent (latest_action_name tracker) = Some a ->
  last_question self = Some lq ->
  slot_dict self !! lq = Some d ->
  d !! "ask_utt" = Some ask ->
  next_action_idx tracker domain rnd self =
    (result_map Some (index_for_action domain (QAct a)),
     set_queue [QList ([ask; "action_listen"] ++ follow_up d)]
               (updated tracker self)).
Proof.
  intros Hq Hint Hup Hexit Hne Hchit Hhit Hlq Hd Hask. apply holds_eq.
  apply (next_action_idx_decision tracker domain rnd self intent);
    try assumption.
  apply holds_bind, holds_attr. rewrite updated_exit_dict, Hexit, Hne.
  apply holds_bind, holds_attr. rewrite updated_chitchat_dict, Hchit, Hhit.
  apply holds_bind, holds_modify.
  apply holds_bind, holds_make_question_queue. simpl.
  rewrite updated_last_question, updated_slot_dict, Hlq. simpl.
  rewrite Hd, Hask. apply holds_bind. unfold queue_append.
  apply holds_modify. apply holds_run_through_queue. simpl.
  split; reflexivity.
Qed.

(** C5 at a concrete input.  The plan has asked [origin]; the queue is
    empty, the intent [weather] is a key of [chitchat_dict] only and the
    latest action is ['action_listen'].  The call answers with the index of
    ['utter_weather'], and the queue it leaves holds ONE entry, the whole
    question queue as a nested list, not its three action names; the next
    call hands that list to the domain registry. *)
Theorem chitchat_queue_is_nested :
  let tracker := ex_tracker ∅ "weather" "action_listen" in
  let out := next_action_idx tracker ex_domain 0 ex_form_asked in
  out.1 = Ok (Some 7%nat) /\
  queue out.2 =
    [QList ["utter_ask_origin"; "action_listen"; "action_check_origin"]] /\
  queue out.2 <>
    QActs ["utter_ask_origin"; "action_listen"; "action_check_origin"] /\
  (next_action_idx tracker ex_domain 0 out.2).1 = Raise DomainError.
Proof.
  vm_compute. split; [reflexivity | split; [reflexivity | split]].
  - discriminate.
  - reflexivity.
Qed.

(** ** The default branch: asking a slot *)

Lemma next_action_idx_ask_eq tracker domain rnd self intent exit_d chit_d
    chosen d ask :
  queue self = [] ->
  intent_of tracker = Ok intent ->
  recomputation_returns tracker self ->
  exit_dict self = Some exit_d ->
  exit_d !! intent = None ->
  chitchat_dict self = Some chit_d ->
  chitchat_hit chit_d intent (latest_action_name tracker) = None ->
  clarify_cond intent (details_intent self) (latest_action_name tracker)
    = Ok false ->
  check_unfilled_slots (updated tracker self) tracker
    !! (rnd mod length (check_unfilled_slots (updated tracker self) tracker))%nat
    = Some chosen ->
  slot_dict self !! chosen = Some d ->
  d !! "ask_utt" = Some ask ->
  next_action_idx tracker domain rnd self =
    (result_map Some (index_for_action domain (QAct ask)),
     set_queue (QActs ("action_listen" :: follow_up d))
               (set_last_question (Some chosen) (updated tracker self))).
Proof.
  intros Hq Hint Hup Hexit Hne Hchit Hhit Hcond Hchoice Hd Hask.
  apply holds_eq.
  apply (next_action_idx_past_chitchat tracker domain rnd self intent exit_d
           chit_d); try assumption.
  apply holds_bind, holds_lift. rewrite updated_details_intent, Hcond.
  destruct (check_unfilled_slots (updated tracker self) tracker)
    as [|x l] eqn:Hs; [discriminate Hchoice|].
  change (Nat.eqb (length (x :: l)) 0) with false. cbv iota.
  apply holds_bind, holds_random_choice. rewrite Hchoice.
  apply holds_bind, holds_modify.
  apply holds_bind, holds_make_question_queue. simpl.
  rewrite updated_slot_dict, Hd, Hask.
  apply holds_bind, holds_modify. apply holds_run_through_queue. simpl.
  split; reflexivity.
Qed.

(** C6 as stated fails.  [origin] was asked before and declares the
    follow-up ['action_check_origin']; [origin] is now filled and
    [destination], which declares no follow-up, is the slot chosen.  The
    queue built is [[utter_ask_destination; action_listen]]: the follow-up
    of the previously asked slot is not appended. *)
Lemma ask_does_not_carry_previous_follow_up :
  let tracker := ex_tracker (<["origin" := PStr "Paris"]> ∅)
                            "plan_inform" "action_listen" in
  let out := next_action_idx tracker ex_domain 0 ex_form_asked in
  last_question ex_form_asked = Some "origin" /\
  follow_up ex_origin_decl = ["action_check_origin"] /\
  out.1 = Ok (Some 2%nat) /\
  last_question out.2 = Some "destination" /\
  queue out.2 = [QAct "action_listen"] /\
  QAct "action_check_origin" ∉ queue out.2.
Proof.
  vm_compute. repeat (split; [reflexivity|]).
  intros Hin. apply list_elem_of_In in Hin. simpl in Hin.
  destruct Hin as [Heq | []]. discriminate Heq.
Qed.

(** C6, amended.  In the default branch (the intent was read, the
    recomputation returned, and the exit, chitchat and clarification tests
    failed), when a new unfilled required slot is chosen, [last_question]
    is set to that slot before the question queue is built, so the
    follow-up appended (when one is declared) is the one declared for the
    slot chosen in this call; the slot asked before the call has no part in
    it. *)
Theorem next_action_idx_ask_follow_up tracker domain rnd self intent exit_d
    chit_d chosen d ask :
  queue self = [] ->
  intent_of tracker = Ok intent ->
  recomputation_returns tracker self ->
  exit_dict self = Some exit_d ->
  exit_d !! intent = None ->
  chitchat_dict self = Some chit_d ->
  chitchat_hit chit_d intent (latest_action_name tracker) = None ->
  clarify_cond intent (details_intent self) (latest_action_name tracker)
    = Ok false ->
  check_unfilled_slots (updated tracker self) tracker
    !! (rnd mod length (check_unfilled_slots (updated tracker self) tracker))%nat
    = Some chosen ->
  slot_dict self !! chosen = Some d ->
  d !! "ask_utt" = Some ask ->
  let out := next_action_idx tracker domain rnd self in
  out.1 = result_map Some (index_for_action domain (QAct ask)) /\
  last_question out.2 = Some chosen /\
  QAct ask :: queue out.2 = QActs ([ask; "action_listen"] ++ follow_up d).
Proof.
  intros Hq Hint Hup Hexit Hne Hchit Hhit Hcond Hchoice Hd Hask out. subst out.
  rewrite (next_action_idx_ask_eq tracker domain rnd self intent exit_d chit_d
             chosen d ask) by assumption.
  simpl. repeat split.
Qed.

Lemma next_action_idx_ask_follow_up_witness :
  let tracker := ex_tracker (<["destination" := PStr "Rome"]> ∅)
                            "plan_inform" "action_listen" in
  let out := next_action_idx tracker ex_domain 0 ex_form in
  out.1 = result_map Some (index_for_action ex_domain (QAct "utter_ask_origin")) /\
  last_question out.2 = Some "origin" /\
  QAct "utter_ask_origin" :: queue out.2 =
    QActs (["utter_ask_origin"; "action_listen"] ++ follow_up ex_origin_decl).
Proof.
  apply (next_action_idx_ask_follow_up
           (ex_tracker (<["destination" := PStr "Rome"]> ∅)
                       "plan_inform" "action_listen")
           ex_domain 0%nat ex_form "inform" ex_exit_dict ex_chitchat_dict
           "origin" ex_origin_decl "utter_ask_origin");
    vm_compute; reflexivity.
Defined.

(** ** The requirement resolver *)

Lemma collect_add table acc kv acc' x :
  collect table acc kv = Ok acc' ->
  x ∈ acc'.1 <->
  x ∈ acc.1 \/
  exists key add take,
    key_of kv.2 = Some key /\
    table !! (kv.1, key) = Some (Some add, take) /\ x ∈ add.
Proof.
  unfold collect. destruct (key_of kv.2) as [key|]; [|discriminate].
  destruct (table !! (kv.1, key)) as [[[add|] take]|] eqn:Ht;
    intros [= <-]; simpl.
  - rewrite elem_of_app. split.
    + intros [Hx|Hx]; [left; assumption | right; eauto 6].
    + intros [Hx|(key' & add' & take' & [= <-] & Heq & Hx)];
        [left; assumption|].
      rewrite Ht in Heq. injection Heq as <- <-. right; assumption.
  - split; [intros Hx; left; assumption|].
    intros [Hx|(key' & add' & take' & [= <-] & Heq & Hx)]; [assumption|].
    rewrite Ht in Heq. discriminate Heq.
  - split; [intros Hx; left; assumption|].
    intros [Hx|(key' & add' & take' & [= <-] & Heq & Hx)]; [assumption|].
    rewrite Ht in Heq. discriminate Heq.
Qed.

Lemma collect_take table acc kv acc' x :
  collect table acc kv = Ok acc' ->
  x ∈ acc'.2 <->
  x ∈ acc.2 \/
  exists key add take,
    key_of kv.2 = Some key /\
    table !! (kv.1, key) = Some (add, Some take) /\ x ∈ take.
Proof.
  unfold collect. destruct (key_of kv.2) as [key|]; [|discriminate].
  destruct (table !! (kv.1, key)) as [[add [take|]]|] eqn:Ht;
    intros [= <-]; simpl.
  - rewrite elem_of_app. split.
    + intros [Hx|Hx]; [left; assumption | right; eauto 6].
    + intros [Hx|(key' & add' & take' & [= <-] & Heq & Hx)];
        [left; assumption|].
      rewrite Ht in Heq. injection Heq as <- <-. right; assumption.
  - split; [intros Hx; left; assumption|].
    intros [Hx|(key' & add' & take' & [= <-] & Heq & Hx)]; [assumption|].
    rewrite Ht in Heq. discriminate Heq.
  - split; [intros Hx; left; assumption|].
    intros [Hx|(key' & add' & take' & [= <-] & Heq & Hx)]; [assumption|].
    rewrite Ht in Heq. discriminate Heq.
Qed.

Lemma foldl_collect_step_Raise table l e :
  foldl (collect_step table) (Raise e) l = Raise e.
Proof. induction l as [|kv l IH]; simpl; [reflexivity | exact IH]. Qed.

(** The only exception of the loop is the [TypeError] of an unhashable
    value. *)
Lemma collect_result table acc kv :
  (exists acc', collect table acc kv = Ok acc' /\ is_Some (key_of kv.2)) \/
  (collect table acc kv = Raise TypeError /\ key_of kv.2 = None).
Proof.
  unfold collect. destruct (key_of kv.2) as [key|]; [left | right; auto].
  destruct (table !! (kv.1, key)) as [[add take]|]; eauto.
Qed.

Lemma foldl_collect_result table l : forall acc,
  (exists acc', foldl (collect_step table) (Ok acc) l = Ok acc' /\
                forall kv, kv ∈ l -> is_Some (key_of kv.2)) \/
  (foldl (collect_step table) (Ok acc) l = Raise TypeError /\
   exists kv, kv ∈ l /\ key_of kv.2 = None).
Proof.
  induction l as [|kv l IH]; intros acc; simpl.
  - left. exists acc. split; [reflexivity|].
    intros kv Hin. apply elem_of_nil in Hin. contradiction.
  - destruct (collect_result table acc kv) as [(acc1 & -> & Hk)|[-> Hk]].
    + destruct (IH acc1) as [(acc' & Hf & Hall)|(Hf & kv' & Hin & Hk')].
      * left. exists acc'. split; [exact Hf|].
        intros kv' Hin. apply elem_of_cons in Hin as [->|Hin]; auto.
      * right. split; [exact Hf|]. exists kv'.
        split; [apply list_elem_of_further; exact Hin | exact Hk'].
    + right. split; [apply foldl_collect_step_Raise|].
      exists kv. split; [apply list_elem_of_here | exact Hk].
Qed.

Lemma foldl_collect_add table l : forall acc acc' x,
  foldl (collect_step table) (Ok acc) l = Ok acc' ->
  x ∈ acc'.1 <->
  x ∈ acc.1 \/
  exists kv key add take,
    kv ∈ l /\ key_of kv.2 = Some key /\
    table !! (kv.1, key) = Some (Some add, take) /\ x ∈ add.
Proof.
  induction l as [|kv l IH]; intros acc acc' x; simpl.
  - intros [= <-]. split; [intros Hx; left; assumption|].
    intros [Hx|(kv & key & add & take & Hin & _)]; [assumption|].
    apply elem_of_nil in Hin. contradiction.
  - destruct (collect table acc kv) as [acc1|e] eqn:Hc;
      [|rewrite foldl_collect_step_Raise; discriminate].
    intros Hf. rewrite (IH _ _ _ Hf), (collect_add _ _ _ _ _ Hc). split.
    + intros [[Hx|(key & add & take & Hk & Ht & Hx)]
             |(kv' & key & add & take & Hin & Hk & Ht & Hx)].
      * left; assumption.
      * right. exists kv, key, add, take.
        split; [apply list_elem_of_here | auto].
      * right. exists kv', key, add, take.
        split; [apply list_elem_of_further; assumption | auto].
    + intros [Hx|(kv' & key & add & take & Hin & Hk & Ht & Hx)];
        [left; left; assumption|].
      apply elem_of_cons in Hin as [->|Hin].
      * left; right; eauto 6.
      * right; eauto 8.
Qed.

Lemma foldl_collect_take table l : forall acc acc' x,
  foldl (collect_step table) (Ok acc) l = Ok acc' ->
  x ∈ acc'.2 <->
  x ∈ acc.2 \/
  exists kv key add take,
    kv ∈ l /\ key_of kv.2 = Some key /\
    table !! (kv.1, key) = Some (add, Some take) /\ x ∈ take.
Proof.
  induction l as [|kv l IH]; intros acc acc' x; simpl.
  - intros [= <-]. split; [intros Hx; left; assumption|].
    intros [Hx|(kv & key & add & take & Hin & _)]; [assumption|].
    apply elem_of_nil in Hin. contradiction.
  - destruct (collect table acc kv) as [acc1|e] eqn:Hc;
      [|rewrite foldl_collect_step_Raise; discriminate].
    intros Hf. rewrite (IH _ _ _ Hf), (collect_take _ _ _ _ _ Hc). split.
    + intros [[Hx|(key & add & take & Hk & Ht & Hx)]
             |(kv' & key & add & take & Hin & Hk & Ht & Hx)].
      * left; assumption.
      * right. exists kv, key, add, take.
        split; [apply list_elem_of_here | auto].
      * right. exists kv', key, add, take.
        split; [apply list_elem_of_further; assumption | auto].
    + intros [Hx|(kv' & key & add & take & Hin & Hk & Ht & Hx)];
        [left; left; assumption|].
      apply elem_of_cons in Hin as [->|Hin].
      * left; right; eauto 6.
      * right; eauto 8.
Qed.

Lemma accumulate_add table slots acc x :
  accumulate table slots = Ok acc ->
  x ∈ acc.1 <-> adds_of table slots x.
Proof.
  unfold accumulate, adds_of. intros Hacc.
  rewrite (foldl_collect_add _ _ _ _ _ Hacc). simpl. split.
  - intros [Hx|([slot value] & key & add & take & Hin & Hk & Ht & Hx)].
    + apply elem_of_nil in Hx. contradiction.
    + apply elem_of_map_to_list in Hin. eauto 10.
  - intros (slot & value & key & add & take & Hs & Hk & Ht & Hx). right.
    exists (slot, value), key, add, take.
    split; [apply elem_of_map_to_list; assumption | auto].
Qed.

Lemma accumulate_take table slots acc x :
  accumulate table slots = Ok acc ->
  x ∈ acc.2 <-> removes_of table slots x.
Proof.
  unfold accumulate, removes_of. intros Hacc.
  rewrite (foldl_collect_take _ _ _ _ _ Hacc). simpl. split.
  - intros [Hx|([slot value] & key & add & take & Hin & Hk & Ht & Hx)].
    + apply elem_of_nil in Hx. contradiction.
    + apply elem_of_map_to_list in Hin. eauto 10.
  - intros (slot & value & key & add & take & Hs & Hk & Ht & Hx). right.
    exists (slot, value), key, add, take.
    split; [apply elem_of_map_to_list; assumption | auto].
Qed.

(** The loop returns exactly when every slot value can be hashed, and
    raises [TypeError] otherwise. *)
Lemma accumulate_result table slots :
  (exists acc, accumulate table slots = Ok acc /\ hashable_slots slots) \/
  (accumulate table slots = Raise TypeError /\
   exists slot value, slots !! slot = Some value /\ key_of value = None).
Proof.
  unfold accumulate.
  destruct (foldl_collect_result table (map_to_list slots) ([], []))
    as [(acc & Hf & Hall)|(Hf & [slot value] & Hin & Hk)].
  - left. exists acc. split; [exact Hf|]. intros slot value Hs.
    apply (Hall (slot, value)), elem_of_map_to_list, Hs.
  - right. split; [exact Hf|]. exists slot, value.
    split; [apply elem_of_map_to_list; exact Hin | exact Hk].
Qed.

Lemma accumulate_hashable table slots :
  hashable_slots slots -> exists acc, accumulate table slots = Ok acc.
Proof.
  intros Hh.
  destruct (accumulate_result table slots)
    as [(acc & Hacc & _)|(_ & slot & value & Hs & Hk)]; [eauto|].
  destruct (Hh slot value Hs) as [key Hkey]. congruence.
Qed.

Lemma accumulate_Ok_hashable table slots acc :
  accumulate table slots = Ok acc -> hashable_slots slots.
Proof.
  intros Hacc.
  destruct (accumulate_result table slots) as [(acc' & _ & Hh)|(Hr & _)];
    [exact Hh | congruence].
Qed.

Lemma update_requirements_accumulated tracker self table acc :
  rules self = Some table ->
  accumulate table (current_slot_values tracker) = Ok acc ->
  _update_requirements tracker self =
    (Ok tt,
     set_current_required
       (elements (list_to_set (required_slots self ++ acc.1) ∖
                  list_to_set acc.2 : gset string)) self).
Proof.
  intros Hr Hacc. unfold _update_requirements, bind, get, modify, lift.
  simpl. rewrite Hr, Hacc. reflexivity.
Qed.

Lemma update_requirements_unhashable tracker self table :
  rules self = Some table ->
  accumulate table (current_slot_values tracker) = Raise TypeError ->
  _update_requirements tracker self = (Raise TypeError, self).
Proof.
  intros Hr Hacc. unfold _update_requirements, bind, get, modify, lift.
  simpl. rewrite Hr, Hacc. reflexivity.
Qed.

Lemma updated_current_required tracker self table acc :
  rules self = Some table ->
  accumulate table (current_slot_values tracker) = Ok acc ->
  current_required (updated tracker self) =
    elements (list_to_set (required_slots self ++ acc.1) ∖
              list_to_set acc.2 : gset string).
Proof.
  intros Hr Hacc. unfold updated.
  rewrite (update_requirements_accumulated tracker self table acc Hr Hacc).
  reflexivity.
Qed.

(** The recomputation returns when the plan holds no rule table or every
    slot value can be hashed. *)
Lemma recomputation_returns_hashable tracker self :
  hashable_slots (current_slot_values tracker) ->
  recomputation_returns tracker self.
Proof.
  intros Hh. unfold recomputation_returns.
  destruct (rules self) as [table|] eqn:Hr.
  - destruct (accumulate_hashable table _ Hh) as [acc Hacc].
    rewrite (update_requirements_accumulated tracker self table acc Hr Hacc).
    reflexivity.
  - unfold _update_requirements, bind, get. simpl. rewrite Hr. reflexivity.
Qed.

Lemma ex_null_form_constructed :
  SimpleForm_init "subscribe"
    (<["newsletter" := <["ask_utt" := "utter_ask_newsletter"]> ∅]> ∅)
    "action_subscribe" (Some ["email"]) (Some ∅) (Some ∅) (Some [])
    (Some ex_null_rules) None = Ok ex_null_form.
Proof. vm_compute. reflexivity. Qed.

Lemma ex_form_constructed :
  SimpleForm_init "booking" ex_slot_dict "action_book" None
    (Some ex_exit_dict) (Some ex_chitchat_dict) (Some ["cancel"; "explain"])
    (Some ∅) None = Ok ex_form.
Proof. vm_compute. reflexivity. Qed.

Lemma ex_car_form_constructed :
  SimpleForm_init "car_rental" ex_car_slot_dict "action_rent" None
    (Some ∅) (Some ∅) (Some []) (Some ex_car_rules) None = Ok ex_car_form.
Proof. vm_compute. reflexivity. Qed.

Lemma ex_member_form_constructed :
  SimpleForm_init "signup" (slot_dict ex_member_form) "action_signup"
    (Some ["member_id"]) (Some ∅) (Some ∅) (Some [])
    (Some ex_member_rules) None = Ok ex_member_form.
Proof. vm_compute. reflexivity. Qed.

(** Membership in the set the specification describes. *)
Lemma spec_recompute_elem base table slots x :
  x ∈ spec_recompute base table slots <->
  (x ∈ base \/
   exists slot value key add take,
     slots !! slot = Some value /\ value <> PNone /\
     key_of value = Some key /\
     table !! (slot, key) = Some (Some add, take) /\ x ∈ add) /\
  ~ (exists slot value key add take,
       slots !! slot = Some value /\ value <> PNone /\
       key_of value = Some key /\
       table !! (slot, key) = Some (add, Some take) /\ x ∈ take).
Proof.
  unfold spec_recompute.
  rewrite elem_of_difference, elem_of_union, !elem_of_list_to_set.
  assert (Hpresent : forall kv,
            kv ∈ filter (fun kv => is_not_None kv.2 = true) (map_to_list slots) <->
            slots !! kv.1 = Some kv.2 /\ kv.2 <> PNone).
  { intros [slot value]. rewrite list_elem_of_filter, elem_of_map_to_list. simpl.
    destruct value; simpl; split; intros [H1 H2]; split;
      congruence || assumption || reflexivity. }
  assert (Hhit : forall e,
    e ∈ omap (fun kv => key_of kv.2 ≫= fun k => table !! (kv.1, k))
          (filter (fun kv => is_not_None kv.2 = true) (map_to_list slots))
    <-> exists slot value key,
          slots !! slot = Some value /\ value <> PNone /\
          key_of value = Some key /\ table !! (slot, key) = Some e).
  { intros e. rewrite list_elem_of_omap. split.
    - intros ([slot value] & Hkv & Ht). apply Hpresent in Hkv as [Hs Hv].
      simpl in *. destruct (key_of value) as [key|] eqn:Hk; [|discriminate].
      simpl in Ht. eauto 8.
    - intros (slot & value & key & Hs & Hv & Hk & Ht). exists (slot, value).
      split; [apply Hpresent; auto|]. simpl. rewrite Hk. exact Ht. }
  assert (Hadd : forall y,
    y ∈ mjoin ((fun e : rule_entry => default [] e.1) <$>
               omap (fun kv => key_of kv.2 ≫= fun k => table !! (kv.1, k))
                 (filter (fun kv => is_not_None kv.2 = true) (map_to_list slots)))
    <-> exists slot value key add take,
          slots !! slot = Some value /\ value <> PNone /\
          key_of value = Some key /\
          table !! (slot, key) = Some (Some add, take) /\ y ∈ add).
  { intros y. rewrite list_elem_of_join. split.
    - intros (l & Hy & Hl). apply list_elem_of_fmap in Hl as ([add take] & -> & He).
      apply Hhit in He as (slot & value & key & Hs & Hv & Hk & Ht).
      destruct add as [add|]; simpl in Hy; [eauto 12|].
      apply elem_of_nil in Hy. contradiction.
    - intros (slot & value & key & add & take & Hs & Hv & Hk & Ht & Hy).
      exists add. split; [assumption|].
      apply list_elem_of_fmap. exists (Some add, take). split; [reflexivity|].
      apply Hhit. eauto 8. }
  assert (Htake : forall y,
    y ∈ mjoin ((fun e : rule_entry => default [] e.2) <$>
               omap (fun kv => key_of kv.2 ≫= fun k => table !! (kv.1, k))
                 (filter (fun kv => is_not_None kv.2 = true) (map_to_list slots)))
    <-> exists slot value key add take,
          slots !! slot = Some value /\ value <> PNone /\
          key_of value = Some key /\
          table !! (slot, key) = Some (add, Some take) /\ y ∈ take).
  { intros y. rewrite list_elem_of_join. split.
    - intros (l & Hy & Hl). apply list_elem_of_fmap in Hl as ([add take] & -> & He).
      apply Hhit in He as (slot & value & key & Hs & Hv & Hk & Ht).
      destruct take as [take|]; simpl in Hy; [eauto 12|].
      apply elem_of_nil in Hy. contradiction.
    - intros (slot & value & key & add & take & Hs & Hv & Hk & Ht & Hy).
      exists take. split; [assumption|].
      apply list_elem_of_fmap. exists (add, Some take). split; [reflexivity|].
      apply Hhit. eauto 8. }
  rewrite Hadd, Htake. reflexivity.
Qed.

(** C1 as stated fails on a rule keyed by the null value.  The plan (the
    one of [ex_null_form_constructed]) has the rules
    [{newsletter: {None: {need: [email]}}}] and the tracker holds
    [newsletter] with the value [None].  The code recomputes
    [{email, newsletter}]; the set the specification describes, which looks
    only at pairs with a non-empty value, is [{newsletter}]. *)
Lemma update_requirements_applies_null_rule :
  current_required (updated ex_null_tracker ex_null_form)
    = ["email"; "newsletter"] /\
  elements (spec_recompute (required_slots ex_null_form) ex_null_table
              (current_slot_values ex_null_tracker)) = ["newsletter"] /\
  (list_to_set (current_required (updated ex_null_tracker ex_null_form))
     : gset string) <>
  spec_recompute (required_slots ex_null_form) ex_null_table
    (current_slot_values ex_null_tracker).
Proof.
  assert (Hcode : current_required (updated ex_null_tracker ex_null_form)
                    = ["email"; "newsletter"]) by (vm_compute; reflexivity).
  assert (Hspec : elements (spec_recompute (required_slots ex_null_form)
                              ex_null_table
                              (current_slot_values ex_null_tracker))
                    = ["newsletter"]) by (vm_compute; reflexivity).
  split; [exact Hcode | split; [exact Hspec |]].
  intros Heq.
  assert (Hin : "email" ∈ elements
            (spec_recompute (required_slots ex_null_form) ex_null_table
               (current_slot_values ex_null_tracker))).
  { rewrite elem_of_elements, <- Heq, elem_of_list_to_set, Hcode.
    apply list_elem_of_here. }
  rewrite Hspec in Hin. apply list_elem_of_In in Hin. simpl in Hin.
  destruct Hin as [Hin | []]. discriminate Hin.
Qed.

(** C1, amended.  For a plan that holds a rule table and a tracker whose
    slot values can all be hashed, the recomputation returns and the
    required set it leaves is (base required ∪ the add lists of every
    (slot, value) pair of the tracker that keys the rule table) minus (the
    remove lists of those same pairs).  The pairs are all the pairs the
    tracker holds, those with a null value included, and a pair keys the
    table as a Python dict finds it, by [==] and [hash] (so the value [1]
    finds a rule keyed [True]).  A slot that is in both accumulators is
    absent from the result: removal wins. *)
Theorem update_requirements_set tracker self table :
  rules self = Some table ->
  hashable_slots (current_slot_values tracker) ->
  recomputation_returns tracker self /\
  (forall x,
     x ∈ current_required (updated tracker self) <->
     (x ∈ required_slots self \/
      adds_of table (current_slot_values tracker) x) /\
     ~ removes_of table (current_slot_values tracker) x) /\
  (forall x,
     adds_of table (current_slot_values tracker) x ->
     removes_of table (current_slot_values tracker) x ->
     x ∉ current_required (updated tracker self)).
Proof.
  intros Hr Hh.
  destruct (accumulate_hashable table _ Hh) as [acc Hacc].
  assert (Hiff : forall x,
     x ∈ current_required (updated tracker self) <->
     (x ∈ required_slots self \/
      adds_of table (current_slot_values tracker) x) /\
     ~ removes_of table (current_slot_values tracker) x).
  { intros x. rewrite (updated_current_required tracker self table acc Hr Hacc).
    rewrite elem_of_elements, elem_of_difference, !elem_of_list_to_set.
    rewrite elem_of_app, (accumulate_add _ _ _ _ Hacc),
      (accumulate_take _ _ _ _ Hacc). reflexivity. }
  split; [apply recomputation_returns_hashable, Hh | split; [exact Hiff|]].
  intros x _ Hrem Hin. apply Hiff in Hin as [_ Hn]. exact (Hn Hrem).
Qed.

(** The membership plan: [member] holds [1] and finds the rule keyed
    [True], which needs [member_id] and drops [email]; [guest] is [yes] and
    its rule drops [member_id], so [member_id] is in both accumulators. *)
Lemma update_requirements_set_witness :
  recomputation_returns ex_member_tracker ex_member_form /\
  (forall x,
     x ∈ current_required (updated ex_member_tracker ex_member_form) <->
     (x ∈ required_slots ex_member_form \/
      adds_of (process_rules_dict ex_member_rules)
        (current_slot_values ex_member_tracker) x) /\
     ~ removes_of (process_rules_dict ex_member_rules)
         (current_slot_values ex_member_tracker) x) /\
  (forall x,
     adds_of (process_rules_dict ex_member_rules)
       (current_slot_values ex_member_tracker) x ->
     removes_of (process_rules_dict ex_member_rules)
       (current_slot_values ex_member_tracker) x ->
     x ∉ current_required (updated ex_member_tracker ex_member_form)).
Proof.
  apply (update_requirements_set ex_member_tracker ex_member_form
           (process_rules_dict ex_member_rules)).
  - reflexivity.
  - eapply (accumulate_Ok_hashable (process_rules_dict ex_member_rules)).
    vm_compute. reflexivity.
Defined.

(** On the membership plan the recomputation leaves [member] and [guest]:
    [email] and [member_id] are removed. *)
Lemma ex_member_recomputed :
  current_required (updated ex_member_tracker ex_member_form)
    = ["guest"; "member"].
Proof. vm_compute. reflexivity. Qed.

(** Where no rule is keyed by a null value that the tracker holds, the code
    computes the set the specification describes. *)
Lemma update_requirements_meets_spec tracker self table :
  rules self = Some table ->
  hashable_slots (current_slot_values tracker) ->
  (forall slot, current_slot_values tracker !! slot = Some PNone ->
                table !! (slot, KNone) = None) ->
  list_to_set (current_required (updated tracker self)) =
    spec_recompute (required_slots self) table (current_slot_values tracker).
Proof.
  intros Hr Hh Hnull. apply set_eq. intros x.
  destruct (accumulate_hashable table _ Hh) as [acc Hacc].
  rewrite elem_of_list_to_set, spec_recompute_elem.
  rewrite (updated_current_required tracker self table acc Hr Hacc).
  rewrite elem_of_elements, elem_of_difference, !elem_of_list_to_set.
  rewrite elem_of_app, (accumulate_add _ _ _ _ Hacc),
    (accumulate_take _ _ _ _ Hacc).
  unfold adds_of, removes_of.
  assert (Hv : forall slot value key e,
            current_slot_values tracker !! slot = Some value ->
            key_of value = Some key ->
            table !! (slot, key) = Some e -> value <> PNone).
  { intros slot value key e Hs Hk Ht ->. injection Hk as <-.
    rewrite (Hnull slot Hs) in Ht. discriminate Ht. }
  split.
  - intros [Hadd Hrem]. split.
    + destruct Hadd as [Hb|(slot & value & key & add & take & Hs & Hk & Ht & Hx)];
        [left; assumption | right].
      exists slot, value, key, add, take. eauto 6 using Hv.
    + intros (slot & value & key & add & take & Hs & _ & Hk & Ht & Hx).
      apply Hrem. exists slot, value, key, add, take. auto.
  - intros [Hadd Hrem]. split.
    + destruct Hadd
        as [Hb|(slot & value & key & add & take & Hs & _ & Hk & Ht & Hx)];
        [left; assumption | right].
      exists slot, value, key, add, take. auto.
    + intros (slot & value & key & add & take & Hs & Hk & Ht & Hx).
      apply Hrem. exists slot, value, key, add, take. eauto 6 using Hv.
Qed.

(** ** Completion *)

Lemma pyval_None_dec (v : pyval) : v = PNone \/ v <> PNone.
Proof. destruct v; [left; reflexivity | right; discriminate ..]. Qed.

Lemma check_unfilled_slots_elem self tracker s :
  s ∈ check_unfilled_slots self tracker <->
  s ∈ current_required self /\
  ~ (exists v, current_slot_values tracker !! s = Some v /\ v <> PNone).
Proof.
  unfold check_unfilled_slots.
  rewrite elem_of_elements, elem_of_difference, !elem_of_list_to_set.
  rewrite list_elem_of_fmap.
  split; intros [Hreq Hn]; (split; [exact Hreq|]).
  - intros (v & Hs & Hv). apply Hn. exists (s, v). split; [reflexivity|].
    apply list_elem_of_filter. split.
    + destruct v; simpl; congruence.
    + apply elem_of_map_to_list. exact Hs.
  - intros ([s' v] & -> & Hin). apply list_elem_of_filter in Hin as [Hv Hin].
    apply elem_of_map_to_list in Hin. apply Hn. exists v. simpl in *.
    split; [exact Hin|]. intros ->. cbn in Hv. discriminate Hv.
Qed.

Lemma check_unfilled_slots_nil self tracker :
  check_unfilled_slots self tracker = [] <->
  forall s, s ∈ current_required self ->
            exists v, current_slot_values tracker !! s = Some v /\ v <> PNone.
Proof.
  split.
  - intros Hnil s Hs.
    destruct (current_slot_values tracker !! s) as [v|] eqn:Hv.
    + destruct (pyval_None_dec v) as [->|Hne]; [|eauto].
      exfalso. apply (not_elem_of_nil s). rewrite <- Hnil.
      apply check_unfilled_slots_elem. split; [exact Hs|].
      intros (v' & Hv' & Hne). congruence.
    + exfalso. apply (not_elem_of_nil s). rewrite <- Hnil.
      apply check_unfilled_slots_elem. split; [exact Hs|].
      intros (v' & Hv' & _). congruence.
  - intros Hall.
    destruct (check_unfilled_slots self tracker) as [|s l] eqn:Hc; [reflexivity|].
    assert (Hin : s ∈ check_unfilled_slots self tracker)
      by (rewrite Hc; apply list_elem_of_here).
    apply check_unfilled_slots_elem in Hin as [Hreq Hn].
    exfalso. apply Hn, Hall, Hreq.
Qed.

(** C7 as stated fails: the check reads the stored [current_required] and
    does not recompute it.  In the car rental conversation [has_car] is
    asked, the user answers [no], and the third call drains the follow-up
    ['deactivate_plan'] without recomputing.  [PlanComplete.run] then
    reports [plan_complete = False], though the set recomputed from the
    tracker, [{has_car}], has no unfilled slot. *)
Lemma plan_complete_reads_stale_requirements :
  ex_car_turn1.1 = Ok (Some 1%nat) /\
  ex_car_turn2.1 = Ok (Some 0%nat) /\
  ex_car_turn3.1 = Ok (Some 3%nat) /\
  (PlanComplete_run (ex_car_tracker_answered (Some ex_car_turn3.2))).1 =
    Ok [EndPlan; SlotSet "active_plan" (PBool false);
        SlotSet "plan_complete" (PBool false)] /\
  check_unfilled_slots
    (updated (ex_car_tracker_answered (Some ex_car_turn3.2)) ex_car_turn3.2)
    (ex_car_tracker_answered (Some ex_car_turn3.2)) = [].
Proof. vm_compute. repeat split; reflexivity. Qed.

(** C7, amended.  [PlanComplete.run] reports complete exactly when every
    slot of the plan instance's stored [current_required] (the set as the
    last decision call left it; the check does not recompute it) has a
    non-null value in the tracker.  It changes neither the tracker nor the
    plan instance, so a second call gives the same result. *)
Theorem PlanComplete_run_complete tracker plan :
  active_plan tracker = Some plan ->
  exists complete,
    PlanComplete_run tracker =
      (Ok [EndPlan; SlotSet "active_plan" (PBool false);
           SlotSet "plan_complete" (PBool complete)], tracker) /\
    (complete = true <->
     forall s, s ∈ current_required plan ->
       exists v, current_slot_values tracker !! s = Some v /\ v <> PNone) /\
    PlanComplete_run (PlanComplete_run tracker).2 = PlanComplete_run tracker.
Proof.
  intros Hplan. unfold PlanComplete_run at 1 3. rewrite Hplan.
  exists (if (length (check_unfilled_slots plan tracker) =? 0)%nat
          then true else false).
  split; [reflexivity | split].
  - rewrite <- check_unfilled_slots_nil.
    destruct (check_unfilled_slots plan tracker); simpl; split;
      reflexivity || discriminate.
  - unfold PlanComplete_run. rewrite Hplan. simpl. rewrite Hplan. reflexivity.
Qed.

Lemma PlanComplete_run_complete_witness :
  exists complete,
    PlanComplete_run (ex_car_tracker_answered (Some ex_car_form)) =
      (Ok [EndPlan; SlotSet "active_plan" (PBool false);
           SlotSet "plan_complete" (PBool complete)],
       ex_car_tracker_answered (Some ex_car_form)) /\
    (complete = true <->
     forall s, s ∈ current_required ex_car_form ->
       exists v, current_slot_values (ex_car_tracker_answered (Some ex_car_form))
                   !! s = Some v /\ v <> PNone) /\
    PlanComplete_run
      (PlanComplete_run (ex_car_tracker_answered (Some ex_car_form))).2 =
    PlanComplete_run (ex_car_tracker_answered (Some ex_car_form)).
Proof.
  apply (PlanComplete_run_complete
           (ex_car_tracker_answered (Some ex_car_form)) ex_car_form).
  reflexivity.
Defined.


(** ** The rule table compiler *)

Lemma process_values_lookup slot l : forall (rd : rule_table) s v,
  NoDup l.*1 ->
  process_values slot rd l !! (s, v) =
    if decide (s = slot)
    then match (list_to_map l : gmap pykey rule_leaf) !! v with
         | Some leaf => Some (compile_leaf leaf)
         | None => rd !! (s, v)
         end
    else rd !! (s, v).
Proof.
  unfold process_values.
  induction l as [|[v0 leaf0] l IH]; intros rd s v Hnd; simpl.
  - rewrite lookup_empty. destruct (decide (s = slot)); reflexivity.
  - apply NoDup_cons in Hnd as [Hfresh Hnd]. rewrite (IH _ s v Hnd).
    destruct (decide (s = slot)) as [->|Hs].
    + destruct (decide (v = v0)) as [->|Hv].
      * rewrite (not_elem_of_list_to_map_1 _ _ Hfresh).
        rewrite !lookup_insert_eq. reflexivity.
      * rewrite (lookup_insert_ne _ v0 v) by congruence.
        rewrite (lookup_insert_ne _ (slot, v0) (slot, v)) by congruence.
        reflexivity.
    + rewrite lookup_insert_ne by congruence. reflexivity.
Qed.

Lemma process_slots_lookup (L : list (string * gmap pykey rule_leaf)) :
  forall (rd : rule_table) s v,
  NoDup L.*1 ->
  foldl (fun rd sv => process_values sv.1 rd (map_to_list sv.2)) rd L !! (s, v) =
    match (list_to_map L : gmap string (gmap pykey rule_leaf)) !! s with
    | Some values =>
        match values !! v with
        | Some leaf => Some (compile_leaf leaf)
        | None => rd !! (s, v)
        end
    | None => rd !! (s, v)
    end.
Proof.
  induction L as [|[s0 values0] L IH]; intros rd s v Hnd; simpl.
  - rewrite lookup_empty. reflexivity.
  - apply NoDup_cons in Hnd as [Hfresh Hnd]. rewrite (IH _ s v Hnd).
    rewrite (process_values_lookup s0 (map_to_list values0) rd s v)
      by apply NoDup_fst_map_to_list.
    rewrite list_to_map_to_list.
    destruct (decide (s = s0)) as [->|Hs].
    + rewrite (not_elem_of_list_to_map_1 _ _ Hfresh), lookup_insert_eq.
      reflexivity.
    + rewrite (lookup_insert_ne _ s0 s) by congruence. reflexivity.
Qed.

(** The compiled table, entry by entry. *)
Lemma process_rules_dict_lookup (r : rules_spec) s v :
  process_rules_dict r !! (s, v) =
    match r !! s with
    | Some values => compile_leaf <$> values !! v
    | None => None
    end.
Proof.
  unfold process_rules_dict.
  rewrite (process_slots_lookup (map_to_list r) ∅ s v)
    by apply NoDup_fst_map_to_list.
  rewrite list_to_map_to_list, lookup_empty.
  destruct (r !! s) as [values|]; [|reflexivity].
  destruct (values !! v); reflexivity.
Qed.

(** C9 as stated fails: for a leaf without ['need'] the compiled entry holds
    [None] in that component, not the empty list. *)
Lemma process_rules_absent_need_is_None :
  (<["lose" := ["license"]]> ∅ : rule_leaf) !! "need" = None /\
  _process_rules (Some ex_car_rules) =
    Ok (<[("has_car", KStr "no") := (None, Some ["license"])]> ∅) /\
  process_rules_dict ex_car_rules !! ("has_car", KStr "no")
    = Some (None, Some ["license"]) /\
  process_rules_dict ex_car_rules !! ("has_car", KStr "no")
    <> Some (Some [], Some ["license"]).
Proof.
  assert (H : process_rules_dict ex_car_rules !! ("has_car", KStr "no")
                = Some (None, Some ["license"])) by (vm_compute; reflexivity).
  split; [vm_compute; reflexivity | split; [vm_compute; reflexivity | split]].
  - exact H.
  - rewrite H. discriminate.
Qed.

(** C9, amended.  The rule-table compiler is a function of the rule
    specification alone; it maps every (slot, value) leaf to the pair
    [(leaf.get('need'), leaf.get('lose'))].  Where a key is absent the
    component is [None], not the empty list; the requirement resolver reads
    a [None] component as it would an empty list, for every slot value
    that finds the entry. *)
Theorem process_rules_leaf (r : rules_spec) slot values value (leaf : rule_leaf) :
  r !! slot = Some values ->
  values !! value = Some leaf ->
  exists table,
    _process_rules (Some r) = Ok table /\
    table !! (slot, value) = Some (leaf !! "need", leaf !! "lose") /\
    (leaf !! "need" = None ->
       exists lose, table !! (slot, value) = Some (None, lose)) /\
    (leaf !! "lose" = None ->
       exists need, table !! (slot, value) = Some (need, None)) /\
    (forall acc v,
       key_of v = Some value ->
       collect table acc (slot, v) =
         Ok (acc.1 ++ default [] (leaf !! "need"),
             acc.2 ++ default [] (leaf !! "lose"))).
Proof.
  intros Hslot Hvalue. exists (process_rules_dict r).
  assert (Hentry : process_rules_dict r !! (slot, value)
                     = Some (leaf !! "need", leaf !! "lose")).
  { rewrite process_rules_dict_lookup, Hslot, Hvalue. reflexivity. }
  split; [reflexivity | split; [exact Hentry | split; [|split]]].
  - intros Hnone. rewrite Hentry, Hnone. eauto.
  - intros Hnone. rewrite Hentry, Hnone. eauto.
  - intros acc v Hv. unfold collect. simpl. rewrite Hv, Hentry.
    destruct (leaf !! "need"), (leaf !! "lose"); simpl;
      rewrite ?app_nil_r; reflexivity.
Qed.

Lemma process_rules_leaf_witness :
  exists table,
    _process_rules (Some ex_car_rules) = Ok table /\
    table !! ("has_car", KStr "no") =
      Some ((<["lose" := ["license"]]> ∅ : rule_leaf) !! "need",
            (<["lose" := ["license"]]> ∅ : rule_leaf) !! "lose") /\
    ((<["lose" := ["license"]]> ∅ : rule_leaf) !! "need" = None ->
       exists lose, table !! ("has_car", KStr "no") = Some (None, lose)) /\
    ((<["lose" := ["license"]]> ∅ : rule_leaf) !! "lose" = None ->
       exists need, table !! ("has_car", KStr "no") = Some (need, None)) /\
    (forall acc v,
       key_of v = Some (KStr "no") ->
       collect table acc ("has_car", v) =
         Ok (acc.1 ++ default [] ((<["lose" := ["license"]]> ∅ : rule_leaf) !! "need"),
             acc.2 ++ default [] ((<["lose" := ["license"]]> ∅ : rule_leaf) !! "lose"))).
Proof.
  apply (process_rules_leaf ex_car_rules "has_car"
           (<[KStr "no" := <["lose" := ["license"]]> ∅]> ∅) (KStr "no")
           (<["lose" := ["license"]]> ∅)); vm_compute; reflexivity.
Defined.

(** ** The constructor *)

(** C8 as stated fails: the constructor accepts a rule that needs
    [insurance], a slot that is neither a key of [slot_dict] nor in
    [optional_slots], and the rule takes effect once [has_car] is [yes]. *)
Lemma undeclared_rule_slot_is_accepted :
  (ex_car_slot_dict !! "insurance" = None) /\
  exists f,
    SimpleForm_init "car_rental" ex_car_slot_dict "action_rent" (Some [])
      (Some ∅) (Some ∅) (Some []) (Some ex_undeclared_rules) None = Ok f /\
    current_required (updated ex_undeclared_tracker f)
      = ["insurance"; "license"; "has_car"].
Proof.
  split; [vm_compute; reflexivity|].
  eexists. split; [reflexivity | vm_compute; reflexivity].
Qed.

(** C8, amended.  The constructor validates no slot name: given any rule
    mapping it succeeds and holds the compiled table, and no load-time
    error exists for a rule that mentions a slot declared neither in
    [slot_dict] nor in [optional_slots].  Such a rule takes effect at run
    time: when the tracker holds, for the slot of a leaf, a value that
    finds the leaf's key as a dict does, and the recomputation returns
    (every slot value can be hashed), every slot of the leaf's ['need']
    list that no triggered rule removes is in [current_required], declared
    or not. *)
Theorem init_accepts_any_rule nm sd fin opt ex ch det (r : rules_spec) subj
    tracker slot values key (leaf : rule_leaf) need x value acc :
  r !! slot = Some values ->
  values !! key = Some leaf ->
  leaf !! "need" = Some need ->
  x ∈ need ->
  current_slot_values tracker !! slot = Some value ->
  key_of value = Some key ->
  accumulate (process_rules_dict r) (current_slot_values tracker) = Ok acc ->
  x ∉ acc.2 ->
  exists f,
    SimpleForm_init nm sd fin opt ex ch det (Some r) subj = Ok f /\
    rules f = Some (process_rules_dict r) /\
    x ∈ current_required (updated tracker f).
Proof.
  intros Hslot Hvalue Hneed Hx Htr Hkey Hacc Hrem. eexists.
  split; [reflexivity | split; [reflexivity|]].
  rewrite (updated_current_required tracker _ (process_rules_dict r) acc)
    by (reflexivity || exact Hacc).
  rewrite elem_of_elements, elem_of_difference, !elem_of_list_to_set.
  split; [|exact Hrem].
  apply elem_of_app. right. apply (accumulate_add _ _ _ _ Hacc).
  exists slot, value, key, need, (leaf !! "lose").
  split; [exact Htr | split; [exact Hkey | split; [|exact Hx]]].
  rewrite process_rules_dict_lookup, Hslot, Hvalue. simpl.
  unfold compile_leaf. rewrite Hneed. reflexivity.
Qed.

Lemma init_accepts_any_rule_witness :
  exists f,
    SimpleForm_init "car_rental" ex_car_slot_dict "action_rent" (Some [])
      (Some ∅) (Some ∅) (Some []) (Some ex_undeclared_rules) None = Ok f /\
    rules f = Some (process_rules_dict ex_undeclared_rules) /\
    "insurance" ∈ current_required (updated ex_undeclared_tracker f).
Proof.
  apply (init_accepts_any_rule "car_rental" ex_car_slot_dict "action_rent"
           (Some []) (Some ∅) (Some ∅) (Some []) ex_undeclared_rules None
           ex_undeclared_tracker "has_car"
           (<[KStr "yes" := <["need" := ["insurance"]]> ∅]> ∅) (KStr "yes")
           (<["need" := ["insurance"]]> ∅) ["insurance"] "insurance"
           (PStr "yes") (["insurance"], [])).
  - vm_compute; reflexivity.
  - vm_compute; reflexivity.
  - vm_compute; reflexivity.
  - apply list_elem_of_here.
  - vm_compute; reflexivity.
  - reflexivity.
  - vm_compute; reflexivity.
  - apply not_elem_of_nil.
Defined.

(** C10.  Without a rule mapping ([rules=None], the declared default) the
    constructor raises: [_process_rules] calls [rules.items()] on [None].
    Hence every constructed plan was given a mapping and holds its compiled
    table, [self.rules] is not [None], and [_update_requirements] never
    takes the early return: it runs the loop, and assigns the recomputed
    set when the loop returns or raises what the loop raised. *)
Theorem init_requires_rules nm sd fin opt ex ch det subj :
  SimpleForm_init nm sd fin opt ex ch det None subj = Raise AttributeError /\
  forall r f,
    SimpleForm_init nm sd fin opt ex ch det r subj = Ok f ->
    exists spec,
      r = Some spec /\
      rules f = Some (process_rules_dict spec) /\
      rules f <> None /\
      forall tracker,
        match accumulate (process_rules_dict spec)
                (current_slot_values tracker) with
        | Ok acc =>
            _update_requirements tracker f =
              (Ok tt,
               set_current_required
                 (elements
                    (list_to_set (required_slots f ++ acc.1) ∖
                     list_to_set acc.2 : gset string)) f)
        | Raise e => _update_requirements tracker f = (Raise e, f)
        end.
Proof.
  split; [reflexivity|].
  intros [spec|] f Hinit; [|discriminate Hinit].
  unfold SimpleForm_init in Hinit. simpl in Hinit. injection Hinit as <-.
  exists spec. split; [reflexivity | split; [reflexivity | split]].
  - discriminate.
  - intros tracker.
    unfold _update_requirements, bind, get, modify, lift. simpl.
    destruct (accumulate _ _); reflexivity.
Qed.

Lemma init_requires_rules_witness :
  exists spec,
    Some (∅ : rules_spec) = Some spec /\
    rules ex_form = Some (process_rules_dict spec) /\
    rules ex_form <> None /\
    forall tracker,
      match accumulate (process_rules_dict spec)
              (current_slot_values tracker) with
      | Ok acc =>
          _update_requirements tracker ex_form =
            (Ok tt,
             set_current_required
               (elements
                  (list_to_set (required_slots ex_form ++ acc.1) ∖
                   list_to_set acc.2 : gset string)) ex_form)
      | Raise e => _update_requirements tracker ex_form = (Raise e, ex_form)
      end.
Proof.
  apply (proj2 (init_requires_rules "booking" ex_slot_dict "action_book" None
                  (Some ex_exit_dict) (Some ex_chitchat_dict)
                  (Some ["cancel"; "explain"]) None) (Some ∅) ex_form).
  vm_compute; reflexivity.
Defined.

(** * Further properties of the module *)

(** ** What every call keeps *)

Ltac idle_leaf :=
  unfold idle_outcome; simpl;
  try match goal with H : queue _ = [] |- _ => rewrite H end; simpl;
  repeat (split; [solve [reflexivity | lia | discriminate
                        | apply result_map_Some_not_None]|]);
  solve [left; reflexivity | eauto].

(** Every way through the branches of [next_action_idx], for a plan [s1]
    with an empty queue. *)
Lemma decision_outcome tracker domain rnd intent s1 :
  queue s1 = [] ->
  holds (decision tracker domain rnd intent s1) s1 (idle_outcome tracker s1).
Proof.
  intros Hq1.
  apply holds_bind, holds_attr.
  destruct (exit_dict s1) as [exit_d|]; [|idle_leaf].
  destruct (exit_d !! intent) as [a|].
  { apply holds_bind, holds_modify. apply holds_run_through_queue. idle_leaf. }
  apply holds_bind, holds_attr.
  destruct (chitchat_dict s1) as [chit_d|]; [|idle_leaf].
  destruct (chitchat_hit chit_d intent (latest_action_name tracker)) as [a|].
  { apply holds_bind, holds_modify. apply holds_bind, holds_make_question_queue.
    simpl. repeat case_match; try idle_leaf.
    apply holds_bind. unfold queue_append. apply holds_modify.
    apply holds_run_through_queue. idle_leaf. }
  apply holds_bind, holds_lift.
  destruct (clarify_cond intent (details_intent s1) (latest_action_name tracker))
    as [[|]|e]; [| |idle_leaf].
  { apply holds_bind, holds_getitem_opt.
    destruct (last_question s1 ≫= (slot_dict s1 !!.)) as [d|]; [|idle_leaf].
    apply holds_bind, holds_getitem.
    destruct (d !! "clarify_utt") as [c|]; [|idle_leaf].
    apply holds_bind, holds_modify. apply holds_bind, holds_make_question_queue.
    simpl. repeat case_match; try idle_leaf.
    apply holds_bind. unfold queue_append. apply holds_modify.
    apply holds_run_through_queue. idle_leaf. }
  destruct (Nat.eqb (length (check_unfilled_slots s1 tracker)) 0).
  { apply holds_bind, holds_modify. apply holds_run_through_queue. idle_leaf. }
  apply holds_bind, holds_random_choice.
  destruct (check_unfilled_slots s1 tracker !! _) as [chosen|] eqn:Hch;
    [|idle_leaf].
  apply list_elem_of_lookup_2 in Hch.
  apply holds_bind, holds_modify. apply holds_bind, holds_make_question_queue.
  simpl. repeat case_match; try idle_leaf.
  apply holds_bind, holds_modify. apply holds_run_through_queue.
  unfold idle_outcome; simpl.
  repeat (split; [first [reflexivity | discriminate
                        | apply result_map_Some_not_None]|]).
  split.
  { unfold QActs. rewrite length_fmap. match goal with |- context [follow_up ?d] =>
      pose proof (length_follow_up d) end. lia. }
  split; [apply result_map_Some_not_None|]. eauto.
Qed.

(** A call on an empty queue ends in one of three ways: the intent cannot be
    read, the recomputation raises, in both cases with the plan untouched,
    or the branches are tried on the recomputed plan. *)
Lemma next_action_idx_idle_outcome tracker domain rnd self :
  queue self = [] ->
  (exists e, next_action_idx tracker domain rnd self = (Raise e, self)) \/
  (recomputation_returns tracker self /\
   holds (next_action_idx tracker domain rnd) self
         (idle_outcome tracker (updated tracker self))).
Proof.
  intros Hq. destruct (intent_of tracker) as [intent|e] eqn:Hint.
  2:{ left. exists e. apply next_action_idx_intent_raises_eq; assumption. }
  destruct (update_requirements_result tracker self) as [Hup|[e Hup]].
  2:{ left. exists e.
      apply (next_action_idx_update_raises_eq tracker domain rnd self intent);
        assumption. }
  right. split; [exact Hup|].
  apply (next_action_idx_decision tracker domain rnd self intent);
    try assumption.
  apply decision_outcome. rewrite updated_queue. exact Hq.
Qed.

(** X1.  [next_action_idx] never returns [None]: whatever the plan, the
    tracker and the domain, a call either returns an action index or
    raises. *)
Theorem next_action_idx_never_None tracker domain rnd self :
  (next_action_idx tracker domain rnd self).1 <> Ok None.
Proof.
  destruct (queue self) as [|front rest] eqn:Hq.
  - destruct (next_action_idx_idle_outcome tracker domain rnd self Hq)
      as [[e ->]|[_ H]]; [discriminate | apply H].
  - rewrite (next_action_idx_cons tracker domain rnd self front rest Hq).
    apply result_map_Some_not_None.
Qed.

Lemma next_action_idx_definition tracker domain rnd self :
  as_dict (next_action_idx tracker domain rnd self).2 = as_dict self /\
  required_slots (next_action_idx tracker domain rnd self).2
    = required_slots self /\
  rules (next_action_idx tracker domain rnd self).2 = rules self.
Proof.
  destruct (queue self) as [|front rest] eqn:Hq.
  - destruct (next_action_idx_idle_outcome tracker domain rnd self Hq)
      as [[e ->]|[_ (Hd & Hr & Hu & _)]]; [repeat split|].
    rewrite Hd, Hr, Hu, (updated_frame tracker self). repeat split.
  - rewrite (next_action_idx_cons tracker domain rnd self front rest Hq).
    repeat split.
Qed.

Lemma next_action_idx_queue_bound tracker domain rnd self :
  (length (queue self) <= 2)%nat ->
  (length (queue (next_action_idx tracker domain rnd self).2) <= 2)%nat.
Proof.
  intros Hlen. destruct (queue self) as [|front rest] eqn:Hq.
  - destruct (next_action_idx_idle_outcome tracker domain rnd self Hq)
      as [[e ->]|[_ H]]; [simpl; rewrite Hq; simpl; lia | apply H].
  - rewrite (next_action_idx_cons tracker domain rnd self front rest Hq).
    simpl in *. lia.
Qed.

(** X2.  Over a whole conversation the plan definition is never changed:
    after any number of calls, whether they returned or raised, [as_dict]
    gives what it gave before, and the base required slots and the
    compiled rule table are the same.  Only [current_required],
    [last_question] and [queue] are ever assigned. *)
Theorem run_turns_keeps_definition domain turns : forall self,
  as_dict (run_turns domain turns self).2 = as_dict self /\
  required_slots (run_turns domain turns self).2 = required_slots self /\
  rules (run_turns domain turns self).2 = rules self.
Proof.
  induction turns as [|[tracker rnd] turns IH]; intros self; simpl.
  - repeat split.
  - destruct (IH (next_action_idx tracker domain rnd self).2) as (Hd & Hr & Hu).
    destruct (next_action_idx_definition tracker domain rnd self)
      as (Hd' & Hr' & Hu').
    rewrite Hd, Hr, Hu. auto.
Qed.

(** X3.  Between calls the queue never holds more than two entries: if it
    holds at most two before a conversation (it is empty in a new plan), it
    holds at most two after every call, whether the calls returned or
    raised. *)
Theorem run_turns_queue_bound domain turns : forall self,
  (length (queue self) <= 2)%nat ->
  (length (queue (run_turns domain turns self).2) <= 2)%nat.
Proof.
  induction turns as [|[tracker rnd] turns IH]; intros self Hlen; simpl.
  - exact Hlen.
  - apply IH, next_action_idx_queue_bound, Hlen.
Qed.

Lemma run_turns_queue_bound_witness :
  (length (queue (run_turns ex_domain
     [(ex_tracker ∅ "plan_book" "action_listen", 0%nat);
      (ex_tracker ∅ "plan_book" "action_listen", 0%nat)] ex_form).2) <= 2)%nat.
Proof.
  apply (run_turns_queue_bound ex_domain
           [(ex_tracker ∅ "plan_book" "action_listen", 0%nat);
            (ex_tracker ∅ "plan_book" "action_listen", 0%nat)] ex_form).
  simpl. lia.
Defined.

(** X4.  When the intent can be read and the recomputation returns, a call
    on an empty queue leaves the recomputed requirements on every later
    path, those that raise after the recomputation included: its
    [current_required] is the one [_update_requirements] computes from the
    tracker of this call, and for a plan that holds a rule table it does
    not depend on the list stored before the call. *)
Theorem next_action_idx_recomputes tracker domain rnd self intent table :
  queue self = [] ->
  intent_of tracker = Ok intent ->
  recomputation_returns tracker self ->
  rules self = Some table ->
  current_required (next_action_idx tracker domain rnd self).2 =
    current_required (updated tracker self) /\
  forall stale,
    current_required
      (next_action_idx tracker domain rnd (set_current_required stale self)).2 =
    current_required (next_action_idx tracker domain rnd self).2.
Proof.
  intros Hq Hint Hup Hr.
  assert (Hfirst : forall s, queue s = [] -> recomputation_returns tracker s ->
            current_required (next_action_idx tracker domain rnd s).2 =
            current_required (updated tracker s)).
  { intros s Hs Hups.
    apply (next_action_idx_decision tracker domain rnd s intent
             (idle_outcome tracker (updated tracker s)) Hs Hint Hups).
    apply decision_outcome. rewrite updated_queue. exact Hs. }
  destruct (accumulate_result table (current_slot_values tracker))
    as [(acc & Hacc & _)|(Hraise & _)].
  2:{ unfold recomputation_returns in Hup.
      rewrite (update_requirements_unhashable tracker self table Hr Hraise)
        in Hup. discriminate Hup. }
  assert (Hups : forall stale,
            recomputation_returns tracker (set_current_required stale self)).
  { intros stale. unfold recomputation_returns.
    rewrite (update_requirements_accumulated tracker _ table acc)
      by (simpl; assumption). reflexivity. }
  split; [apply Hfirst; assumption|].
  intros stale. rewrite !Hfirst by (simpl; auto).
  rewrite !(updated_current_required _ _ table acc) by (simpl; assumption).
  reflexivity.
Qed.

Lemma next_action_idx_recomputes_witness :
  current_required
    (next_action_idx (ex_car_tracker_answered None) ex_car_domain 0
       ex_car_form).2 =
    current_required (updated (ex_car_tracker_answered None) ex_car_form) /\
  forall stale,
    current_required
      (next_action_idx (ex_car_tracker_answered None) ex_car_domain 0
         (set_current_required stale ex_car_form)).2 =
    current_required
      (next_action_idx (ex_car_tracker_answered None) ex_car_domain 0
         ex_car_form).2.
Proof.
  apply (next_action_idx_recomputes (ex_car_tracker_answered None)
           ex_car_domain 0%nat ex_car_form "inform"
           (<[("has_car", KStr "no") := (None, Some ["license"])]> ∅));
    vm_compute; reflexivity.
Defined.

(** X5.  The engine only ever asks for a slot that is required and
    unfilled: a call leaves [last_question] as it was, or sets it to a slot
    that is in the [current_required] it leaves and has no non-null value
    in the tracker. *)
Theorem next_action_idx_asks_unfilled tracker domain rnd self :
  let out := next_action_idx tracker domain rnd self in
  last_question out.2 = last_question self \/
  exists chosen,
    last_question out.2 = Some chosen /\
    chosen ∈ current_required out.2 /\
    ~ (exists v, current_slot_values tracker !! chosen = Some v /\ v <> PNone).
Proof.
  intros out. subst out. destruct (queue self) as [|front rest] eqn:Hq.
  - destruct (next_action_idx_idle_outcome tracker domain rnd self Hq)
      as [[e ->]|[_ (_ & _ & _ & Hcr & _ & _ & [Hlq|(chosen & Hlq & Hin)])]].
    + left. reflexivity.
    + left. rewrite Hlq. apply updated_last_question.
    + right. exists chosen. split; [exact Hlq|]. rewrite Hcr.
      apply check_unfilled_slots_elem. exact Hin.
  - left. rewrite (next_action_idx_cons tracker domain rnd self front rest Hq).
    reflexivity.
Qed.

(** [check_unfilled_slots] reads [current_required] of the plan and the slot
    values of the tracker, nothing else. *)
Lemma check_unfilled_slots_ext self self' tracker tracker' :
  current_required self = current_required self' ->
  current_slot_values tracker = current_slot_values tracker' ->
  check_unfilled_slots self tracker = check_unfilled_slots self' tracker'.
Proof. intros Hc Hs. unfold check_unfilled_slots. rewrite Hc, Hs. reflexivity. Qed.

(** X6.  Right after a decision call (one made on an empty queue) in which
    the intent could be read and the recomputation returned, and as long
    as the slot values have not changed, [PlanComplete.run] answers for
    the recomputed requirements: it reports complete exactly when every
    slot of the set recomputed from the tracker has a non-null value. *)
Theorem PlanComplete_after_decision tracker domain rnd self intent tracker' :
  queue self = [] ->
  intent_of tracker = Ok intent ->
  recomputation_returns tracker self ->
  active_plan tracker' = Some (next_action_idx tracker domain rnd self).2 ->
  current_slot_values tracker' = current_slot_values tracker ->
  exists complete,
    (PlanComplete_run tracker').1 =
      Ok [EndPlan; SlotSet "active_plan" (PBool false);
          SlotSet "plan_complete" (PBool complete)] /\
    (complete = true <->
     forall s, s ∈ current_required (updated tracker self) ->
       exists v, current_slot_values tracker !! s = Some v /\ v <> PNone).
Proof.
  intros Hq Hint Hup Hplan Hslots.
  assert (Hcr : current_required (next_action_idx tracker domain rnd self).2 =
                current_required (updated tracker self)).
  { apply (next_action_idx_decision tracker domain rnd self intent
             (idle_outcome tracker (updated tracker self)) Hq Hint Hup).
    apply decision_outcome. rewrite updated_queue. exact Hq. }
  unfold PlanComplete_run. rewrite Hplan. simpl.
  rewrite (check_unfilled_slots_ext _ (updated tracker self) tracker' tracker
             Hcr Hslots).
  eexists. split; [reflexivity|].
  rewrite <- check_unfilled_slots_nil.
  destruct (check_unfilled_slots (updated tracker self) tracker); simpl; split;
    reflexivity || discriminate.
Qed.

Lemma PlanComplete_after_decision_witness :
  exists complete,
    (PlanComplete_run
       (ex_car_tracker_answered
          (Some (next_action_idx (ex_car_tracker_answered None)
                   ex_car_domain 0 ex_car_form).2))).1 =
      Ok [EndPlan; SlotSet "active_plan" (PBool false);
          SlotSet "plan_complete" (PBool complete)] /\
    (complete = true <->
     forall s,
       s ∈ current_required (updated (ex_car_tracker_answered None) ex_car_form) ->
       exists v, current_slot_values (ex_car_tracker_answered None) !! s = Some v
                 /\ v <> PNone).
Proof.
  apply (PlanComplete_after_decision (ex_car_tracker_answered None)
           ex_car_domain 0%nat ex_car_form "inform"
           (ex_car_tracker_answered
              (Some (next_action_idx (ex_car_tracker_answered None)
                       ex_car_domain 0 ex_car_form).2)));
    vm_compute; reflexivity.
Defined.

(** ** The remaining branches *)

Lemma next_action_idx_finish_eq tracker domain rnd self intent exit_d chit_d :
  queue self = [] ->
  intent_of tracker = Ok intent ->
  recomputation_returns tracker self ->
  exit_dict self = Some exit_d ->
  exit_d !! intent = None ->
  chitchat_dict self = Some chit_d ->
  chitchat_hit chit_d intent (latest_action_name tracker) = None ->
  clarify_cond intent (details_intent self) (latest_action_name tracker)
    = Ok false ->
  check_unfilled_slots (updated tracker self) tracker = [] ->
  next_action_idx tracker domain rnd self =
    (result_map Some (index_for_action domain (QAct (finish_action self))),
     set_queue [QAct "action_listen"] (updated tracker self)).
Proof.
  intros Hq Hint Hup Hexit Hne Hchit Hhit Hcond Hnil. apply holds_eq.
  apply (next_action_idx_past_chitchat tracker domain rnd self intent exit_d
           chit_d); try assumption.
  apply holds_bind, holds_lift.
  rewrite updated_details_intent, Hcond, Hnil. simpl.
  apply holds_bind, holds_modify. apply holds_run_through_queue. simpl.
  rewrite updated_finish_action. split; reflexivity.
Qed.

(** X7.  The finish branch.  When the queue is empty, the intent can be
    read, the recomputation returns, the intent is no exit intent and
    triggers neither chitchat nor clarification, and every slot of the
    recomputed requirements has a non-null value, the call answers with
    the domain's index of [finish_action] and leaves ['action_listen']
    alone in the queue; [last_question] is not changed. *)
Theorem next_action_idx_finish tracker domain rnd self intent exit_d chit_d :
  queue self = [] ->
  intent_of tracker = Ok intent ->
  recomputation_returns tracker self ->
  exit_dict self = Some exit_d ->
  exit_d !! intent = None ->
  chitchat_dict self = Some chit_d ->
  chitchat_hit chit_d intent (latest_action_name tracker) = None ->
  clarify_cond intent (details_intent self) (latest_action_name tracker)
    = Ok false ->
  (forall s, s ∈ current_required (updated tracker self) ->
     exists v, current_slot_values tracker !! s = Some v /\ v <> PNone) ->
  let out := next_action_idx tracker domain rnd self in
  out.1 = result_map Some (index_for_action domain (QAct (finish_action self))) /\
  queue out.2 = [QAct "action_listen"] /\
  last_question out.2 = last_question self.
Proof.
  intros Hq Hint Hup Hexit Hne Hchit Hhit Hcond Hfilled out. subst out.
  apply check_unfilled_slots_nil in Hfilled.
  rewrite (next_action_idx_finish_eq tracker domain rnd self intent exit_d
             chit_d) by assumption.
  simpl. rewrite updated_last_question. repeat split.
Qed.

Lemma next_action_idx_finish_witness :
  let tracker := ex_tracker (<["origin" := PStr "Paris"]>
                             (<["destination" := PStr "Rome"]> ∅))
                            "plan_inform" "action_listen" in
  let out := next_action_idx tracker ex_domain 0 ex_form_asked in
  out.1 = result_map Some
            (index_for_action ex_domain (QAct (finish_action ex_form_asked))) /\
  queue out.2 = [QAct "action_listen"] /\
  last_question out.2 = last_question ex_form_asked.
Proof.
  apply (next_action_idx_finish
           (ex_tracker (<["origin" := PStr "Paris"]>
                        (<["destination" := PStr "Rome"]> ∅))
                       "plan_inform" "action_listen")
           ex_domain 0%nat ex_form_asked "inform" ex_exit_dict ex_chitchat_dict);
    try (vm_compute; reflexivity).
  apply check_unfilled_slots_nil. vm_compute. reflexivity.
Defined.

(** X8.  The clarification branch.  When the queue is empty, the intent can
    be read, the recomputation returns, the intent is no exit intent, does
    not trigger chitchat, is one of [details_intent] and the latest action
    name is a string that does not contain ['utter_explain'], the call
    answers with the domain's index of the ['clarify_utt'] of the slot
    asked last.  The question queue is appended as one nested entry
    ([self.queue.append] of a list), so the queue left holds that single
    list and not its action names. *)
Theorem next_action_idx_clarify tracker domain rnd self intent exit_d chit_d
    details latest lq d c ask :
  queue self = [] ->
  intent_of tracker = Ok intent ->
  recomputation_returns tracker self ->
  exit_dict self = Some exit_d ->
  exit_d !! intent = None ->
  chitchat_dict self = Some chit_d ->
  chitchat_hit chit_d intent (latest_action_name tracker) = None ->
  details_intent self = Some details ->
  intent ∈ details ->
  latest_action_name tracker = Some latest ->
  str_contains "utter_explain" latest = false ->
  last_question self = Some lq ->
  slot_dict self !! lq = Some d ->
  d !! "clarify_utt" = Some c ->
  d !! "ask_utt" = Some ask ->
  let out := next_action_idx tracker domain rnd self in
  out.1 = result_map Some (index_for_action domain (QAct c)) /\
  queue out.2 = [QList ([ask; "action_listen"] ++ follow_up d)] /\
  last_question out.2 = Some lq.
Proof.
  intros Hq Hint Hup Hexit Hne Hchit Hhit Hdet Hin Hlatest Hexp Hlq Hd Hc Hask
    out. subst out.
  erewrite (holds_eq (next_action_idx tracker domain rnd) self); cycle 1.
  { apply (next_action_idx_past_chitchat tracker domain rnd self intent exit_d
             chit_d); try assumption.
    apply holds_bind, holds_lift. unfold clarify_cond.
    rewrite updated_details_intent, Hdet, (bool_decide_eq_true_2 _ Hin),
      Hlatest, Hexp.
    simpl. apply holds_bind, holds_getitem_opt.
    rewrite updated_last_question, updated_slot_dict, Hlq. simpl. rewrite Hd.
    apply holds_bind, holds_getitem. rewrite Hc.
    apply holds_bind, holds_modify.
    apply holds_bind, holds_make_question_queue. simpl.
    rewrite updated_last_question, updated_slot_dict, Hlq. simpl.
    rewrite Hd, Hask. apply holds_bind. unfold queue_append.
    apply holds_modify. apply holds_run_through_queue. simpl.
    split; reflexivity. }
  simpl. rewrite updated_last_question. auto.
Qed.

Lemma next_action_idx_clarify_witness :
  let tracker := ex_tracker ∅ "plan_explain" "utter_ask_origin" in
  let out := next_action_idx tracker ex_domain 0 ex_form_asked in
  out.1 = result_map Some
            (index_for_action ex_domain (QAct "utter_explain_origin")) /\
  queue out.2 =
    [QList (["utter_ask_origin"; "action_listen"] ++ follow_up ex_origin_decl)] /\
  last_question out.2 = Some "origin".
Proof.
  apply (next_action_idx_clarify
           (ex_tracker ∅ "plan_explain" "utter_ask_origin")
           ex_domain 0%nat ex_form_asked "explain" ex_exit_dict
           ex_chitchat_dict ["cancel"; "explain"] "utter_ask_origin"
           "origin" ex_origin_decl "utter_explain_origin" "utter_ask_origin");
    try (vm_compute; reflexivity).
  apply list_elem_of_further, list_elem_of_here.
Defined.

(** ** Exceptions *)

(** X9.  A plan built without [exit_dict] (the constructor's default is
    [None]) cannot decide: every call on an empty queue raises and leaves
    the queue empty and [last_question] as it was, so the next call raises
    as well.  The exception is the [AttributeError] of
    [self.exit_dict.keys()], raised after the requirements were
    recomputed, whenever the intent can be read and the recomputation
    returns. *)
Theorem next_action_idx_no_exit_dict tracker domain rnd self :
  queue self = [] ->
  exit_dict self = None ->
  let out := next_action_idx tracker domain rnd self in
  (exists e, out.1 = Raise e) /\
  queue out.2 = [] /\
  exit_dict out.2 = None /\
  last_question out.2 = last_question self /\
  (forall intent,
     intent_of tracker = Ok intent ->
     recomputation_returns tracker self ->
     out = (Raise AttributeError, updated tracker self)).
Proof.
  intros Hq Hexit out. subst out.
  assert (Hdecided : forall intent,
     intent_of tracker = Ok intent ->
     recomputation_returns tracker self ->
     next_action_idx tracker domain rnd self =
       (Raise AttributeError, updated tracker self)).
  { intros intent Hint Hup. apply holds_eq.
    apply (next_action_idx_decision tracker domain rnd self intent);
      try assumption.
    apply holds_bind, holds_attr. rewrite updated_exit_dict, Hexit.
    split; reflexivity. }
  destruct (intent_of tracker) as [intent|e] eqn:Hint.
  2:{ rewrite (next_action_idx_intent_raises_eq tracker domain rnd self e)
        by assumption.
      simpl. split; [eauto|]. repeat split; try assumption.
      intros intent [=]. }
  destruct (update_requirements_result tracker self) as [Hup|[e Hup]].
  - rewrite (Hdecided intent eq_refl Hup). simpl.
    rewrite updated_queue, updated_exit_dict, updated_last_question.
    split; [eauto|]. repeat split; assumption.
  - rewrite (next_action_idx_update_raises_eq tracker domain rnd self intent e)
      by assumption.
    simpl. split; [eauto|]. repeat split; try assumption.
    intros intent' _ Hret. unfold recomputation_returns in Hret. congruence.
Qed.

Lemma next_action_idx_no_exit_dict_witness :
  let out := next_action_idx (ex_tracker ∅ "plan_book" "action_listen")
               ex_domain 0 ex_form_defaults in
  (exists e, out.1 = Raise e) /\
  queue out.2 = [] /\
  exit_dict out.2 = None /\
  last_question out.2 = last_question ex_form_defaults /\
  (forall intent,
     intent_of (ex_tracker ∅ "plan_book" "action_listen") = Ok intent ->
     recomputation_returns (ex_tracker ∅ "plan_book" "action_listen")
       ex_form_defaults ->
     out = (Raise AttributeError,
            updated (ex_tracker ∅ "plan_book" "action_listen")
              ex_form_defaults)).
Proof.
  apply (next_action_idx_no_exit_dict
           (ex_tracker ∅ "plan_book" "action_listen") ex_domain 0%nat
           ex_form_defaults); reflexivity.
Defined.

(** X10.  Chitchat before any question was asked.  When the chitchat
    branch is taken (the intent was read and the recomputation returned)
    while [last_question] is still [None], the call raises [KeyError] (at
    [self.slot_dict[None]]) after it has already assigned the queue: the
    chitchat action stays in the queue, and the next call returns its
    index without deciding anything. *)
Theorem next_action_idx_chitchat_unasked tracker domain rnd self intent exit_d
    chit_d a :
  queue self = [] ->
  intent_of tracker = Ok intent ->
  recomputation_returns tracker self ->
  exit_dict self = Some exit_d ->
  exit_d !! intent = None ->
  chitchat_dict self = Some chit_d ->
  chitchat_hit chit_d intent (latest_action_name tracker) = Some a ->
  last_question self = None ->
  let out := next_action_idx tracker domain rnd self in
  out.1 = Raise KeyError /\
  queue out.2 = [QAct a] /\
  forall tracker' rnd',
    (next_action_idx tracker' domain rnd' out.2).1 =
      result_map Some (index_for_action domain (QAct a)) /\
    queue (next_action_idx tracker' domain rnd' out.2).2 = [].
Proof.
  intros Hq Hint Hup Hexit Hne Hchit Hhit Hlq out. subst out.
  erewrite (holds_eq (next_action_idx tracker domain rnd) self); cycle 1.
  { apply (next_action_idx_decision tracker domain rnd self intent);
      try assumption.
    apply holds_bind, holds_attr. rewrite updated_exit_dict, Hexit, Hne.
    apply holds_bind, holds_attr. rewrite updated_chitchat_dict, Hchit, Hhit.
    apply holds_bind, holds_modify.
    apply holds_bind, holds_make_question_queue.
    rewrite updated_last_question, Hlq. simpl. split; reflexivity. }
  simpl. split; [reflexivity | split; [reflexivity|]].
  intros tracker' rnd'.
  rewrite (next_action_idx_cons tracker' domain rnd' _ (QAct a) [])
    by reflexivity.
  split; reflexivity.
Qed.

Lemma next_action_idx_chitchat_unasked_witness :
  let out := next_action_idx (ex_tracker ∅ "plan_weather" "action_listen")
               ex_domain 0 ex_form in
  out.1 = Raise KeyError /\
  queue out.2 = [QAct "utter_weather"] /\
  forall tracker' rnd',
    (next_action_idx tracker' ex_domain rnd' out.2).1 =
      result_map Some (index_for_action ex_domain (QAct "utter_weather")) /\
    queue (next_action_idx tracker' ex_domain rnd' out.2).2 = [].
Proof.
  apply (next_action_idx_chitchat_unasked
           (ex_tracker ∅ "plan_weather" "action_listen") ex_domain 0%nat
           ex_form "weather" ex_exit_dict ex_chitchat_dict "utter_weather");
    vm_compute; reflexivity.
Defined.

(** X11.  Asking a slot that has no declaration.  When the slot chosen in
    the default branch (the intent was read, the recomputation returned
    and the exit, chitchat and clarification tests failed) is not a key of
    [slot_dict] (a slot that only a rule's ['need'] list brought in), the
    call raises [KeyError] after [last_question] was set to that slot; the
    queue stays empty. *)
Theorem next_action_idx_ask_undeclared tracker domain rnd self intent exit_d
    chit_d chosen :
  queue self = [] ->
  intent_of tracker = Ok intent ->
  recomputation_returns tracker self ->
  exit_dict self = Some exit_d ->
  exit_d !! intent = None ->
  chitchat_dict self = Some chit_d ->
  chitchat_hit chit_d intent (latest_action_name tracker) = None ->
  clarify_cond intent (details_intent self) (latest_action_name tracker)
    = Ok false ->
  check_unfilled_slots (updated tracker self) tracker
    !! (rnd mod length (check_unfilled_slots (updated tracker self) tracker))%nat
    = Some chosen ->
  slot_dict self !! chosen = None ->
  let out := next_action_idx tracker domain rnd self in
  out.1 = Raise KeyError /\
  last_question out.2 = Some chosen /\
  queue out.2 = [].
Proof.
  intros Hq Hint Hup Hexit Hne Hchit Hhit Hcond Hchoice Hd out. subst out.
  erewrite (holds_eq (next_action_idx tracker domain rnd) self); cycle 1.
  { apply (next_action_idx_past_chitchat tracker domain rnd self intent exit_d
             chit_d); try assumption.
    apply holds_bind, holds_lift. rewrite updated_details_intent, Hcond.
    destruct (check_unfilled_slots (updated tracker self) tracker)
      as [|x l] eqn:Hs; [discriminate Hchoice|].
    change (Nat.eqb (length (x :: l)) 0) with false. cbv iota.
    apply holds_bind, holds_random_choice. rewrite Hchoice.
    apply holds_bind, holds_modify.
    apply holds_bind, holds_make_question_queue. simpl.
    rewrite updated_slot_dict, Hd. split; reflexivity. }
  simpl. rewrite updated_queue. auto.
Qed.

Lemma next_action_idx_ask_undeclared_witness :
  let out := next_action_idx ex_null_tracker ex_domain 0 ex_null_form in
  out.1 = Raise KeyError /\
  last_question out.2 = Some "email" /\
  queue out.2 = [].
Proof.
  apply (next_action_idx_ask_undeclared ex_null_tracker ex_domain 0%nat
           ex_null_form "subscribe" ∅ ∅ "email"); vm_compute; reflexivity.
Defined.

(** X21.  A plan built without [details_intent] (the constructor's default
    is [None]) raises [TypeError] at [intent in self.details_intent]
    whenever a decision gets past the exit and chitchat tests; nothing is
    queued and no slot is asked. *)
Theorem next_action_idx_no_details_intent tracker domain rnd self intent
    exit_d chit_d :
  queue self = [] ->
  intent_of tracker = Ok intent ->
  exit_dict self = Some exit_d ->
  exit_d !! intent = None ->
  chitchat_dict self = Some chit_d ->
  chitchat_hit chit_d intent (latest_action_name tracker) = None ->
  details_intent self = None ->
  next_action_idx tracker domain rnd self =
    (Raise TypeError, updated tracker self) /\
  queue (updated tracker self) = [] /\
  last_question (updated tracker self) = last_question self.
Proof.
  intros Hq Hint Hexit Hne Hchit Hhit Hdet.
  split; [|split; [rewrite updated_queue; exact Hq
                  | apply updated_last_question]].
  destruct (update_requirements_result tracker self) as [Hup|[e Hup]].
  - apply holds_eq.
    apply (next_action_idx_past_chitchat tracker domain rnd self intent exit_d
             chit_d); try assumption.
    apply holds_bind, holds_lift. rewrite updated_details_intent, Hdet.
    split; reflexivity.
  - rewrite (next_action_idx_update_raises_eq tracker domain rnd self intent e)
      by assumption.
    rewrite (updated_raises tracker self e Hup).
    assert (e = TypeError) as ->; [|reflexivity].
    unfold _update_requirements, bind, get, modify, lift in Hup. simpl in Hup.
    destruct (rules self) as [table|]; [|discriminate Hup].
    destruct (accumulate_result table (current_slot_values tracker))
      as [(acc & Hacc & _)|(Hacc & _)]; rewrite Hacc in Hup; simpl in Hup;
      congruence.
Qed.

Lemma next_action_idx_no_details_intent_witness :
  let tracker := ex_tracker ∅ "plan_book" "action_listen" in
  let self :=
    {| name := "booking"; slot_dict := ex_slot_dict;
       current_required := ["origin"; "destination"];
       required_slots := ["origin"; "destination"];
       optional_slots := None; exit_dict := Some ex_exit_dict;
       chitchat_dict := Some ex_chitchat_dict; finish_action := "action_book";
       details_intent := None; rules_yaml := Some ∅;
       rules := Some ∅; subject := None;
       last_question := None; queue := [] |} in
  next_action_idx tracker ex_domain 0 self =
    (Raise TypeError, updated tracker self) /\
  queue (updated tracker self) = [] /\
  last_question (updated tracker self) = last_question self.
Proof.
  apply (next_action_idx_no_details_intent
           (ex_tracker ∅ "plan_book" "action_listen") ex_domain 0%nat
           _ "book" ex_exit_dict ex_chitchat_dict); vm_compute; reflexivity.
Defined.

(** X22.  An unhashable slot value stops every decision.  For a plan that
    holds a rule table (every constructed plan does), when the queue is
    empty, the intent can be read and the tracker holds a list or a dict in
    some slot, the call raises [TypeError] (at
    [slot_tuple in self.rules.keys()], even with an empty table) before
    any branch is tried, and leaves the plan exactly as it was: the stored
    [current_required] is kept, nothing is queued, no slot is asked. *)
Theorem next_action_idx_unhashable_slot tracker domain rnd self intent table
    slot value :
  queue self = [] ->
  intent_of tracker = Ok intent ->
  rules self = Some table ->
  current_slot_values tracker !! slot = Some value ->
  key_of value = None ->
  next_action_idx tracker domain rnd self = (Raise TypeError, self) /\
  _update_requirements tracker self = (Raise TypeError, self).
Proof.
  intros Hq Hint Hr Hs Hk.
  assert (Hacc : accumulate table (current_slot_values tracker)
                   = Raise TypeError).
  { destruct (accumulate_result table (current_slot_values tracker))
      as [(acc & _ & Hh)|[Hacc _]]; [|exact Hacc].
    destruct (Hh slot value Hs) as [key Hkey]. congruence. }
  pose proof (update_requirements_unhashable tracker self table Hr Hacc) as Hup.
  split; [|exact Hup].
  apply (next_action_idx_update_raises_eq tracker domain rnd self intent);
    try assumption.
  rewrite Hup. reflexivity.
Qed.

Lemma next_action_idx_unhashable_slot_witness :
  next_action_idx (ex_list_tracker "plan_inform") ex_domain 0 ex_form_asked =
    (Raise TypeError, ex_form_asked) /\
  _update_requirements (ex_list_tracker "plan_inform") ex_form_asked =
    (Raise TypeError, ex_form_asked).
Proof.
  apply (next_action_idx_unhashable_slot (ex_list_tracker "plan_inform")
           ex_domain 0%nat ex_form_asked "inform" ∅ "origin"
           (PList [PStr "Paris"; PStr "Lyon"])); reflexivity.
Defined.

(** X23.  The intent is read first.  On an empty queue, when the latest
    message has no intent name to give (the lookup raises) or the name is
    [None] ([None] has no [replace]: [AttributeError]), the call raises
    that exception before the requirements are recomputed and leaves the
    plan exactly as it was, the stored [current_required] included. *)
Theorem next_action_idx_no_intent tracker domain rnd self e :
  queue self = [] ->
  latest_intent_name tracker = Raise e \/
  (latest_intent_name tracker = Ok None /\ e = AttributeError) ->
  next_action_idx tracker domain rnd self = (Raise e, self).
Proof.
  intros Hq Hname. apply next_action_idx_intent_raises_eq; [exact Hq|].
  unfold intent_of. destruct Hname as [->|[-> ->]]; reflexivity.
Qed.

Lemma next_action_idx_no_intent_witness :
  next_action_idx
    {| current_slot_values := <["has_car" := PStr "no"]> ∅;
       latest_intent_name := Raise KeyError;
       latest_action_name := Some "action_listen"; active_plan := None |}
    ex_car_domain 0 ex_car_form = (Raise KeyError, ex_car_form).
Proof.
  apply (next_action_idx_no_intent
           {| current_slot_values := <["has_car" := PStr "no"]> ∅;
              latest_intent_name := Raise KeyError;
              latest_action_name := Some "action_listen";
              active_plan := None |}
           ex_car_domain 0%nat ex_car_form KeyError).
  - reflexivity.
  - left. reflexivity.
Defined.

(** ** Draining over several calls *)

(** X12.  The queue is first in, first out across calls.  As many calls as
    there are turns, no more than the queue holds entries, answer with the
    domain's result for the front entries in order (an entry the domain
    rejects raises in its own turn and is dropped all the same) and leave
    the rest of the queue, in order, in an otherwise unchanged plan;
    neither the trackers nor the random numbers of these turns matter. *)
Theorem run_turns_drains domain turns : forall self,
  (length turns <= length (queue self))%nat ->
  run_turns domain turns self =
    ((fun q => result_map Some (index_for_action domain q))
       <$> take (length turns) (queue self),
     set_queue (drop (length turns) (queue self)) self).
Proof.
  induction turns as [|[tracker rnd] turns IH]; intros self Hlen; simpl.
  - rewrite drop_0. destruct self; reflexivity.
  - destruct (queue self) as [|front rest] eqn:Hq; [simpl in Hlen; lia|].
    rewrite (next_action_idx_cons tracker domain rnd self front rest Hq).
    simpl. rewrite (IH (set_queue rest self)) by (simpl in *; lia).
    reflexivity.
Qed.

Lemma run_turns_drains_witness :
  run_turns ex_domain
    [(ex_tracker ∅ "plan_cancel" "action_listen", 0%nat);
     (ex_tracker ∅ "plan_weather" "utter_weather", 1%nat)] ex_form_queued =
    ((fun q => result_map Some (index_for_action ex_domain q))
       <$> take 2 (queue ex_form_queued),
     set_queue (drop 2 (queue ex_form_queued)) ex_form_queued).
Proof.
  apply (run_turns_drains ex_domain
           [(ex_tracker ∅ "plan_cancel" "action_listen", 0%nat);
            (ex_tracker ∅ "plan_weather" "utter_weather", 1%nat)]
           ex_form_queued).
  simpl. lia.
Defined.

(** ** Loop prevention *)

Lemma ignores_bind {A B} (c : M A) (k : A -> M B) :
  ignores_chitchat_dict c ->
  (forall a, ignores_chitchat_dict (k a)) ->
  ignores_chitchat_dict (bind c k).
Proof.
  intros Hc Hk v self. unfold bind. rewrite (Hc v self).
  destruct (c self) as [[a|e] self']; simpl; [apply Hk | reflexivity].
Qed.

Lemma ignores_const {A} (c : M A) r :
  (forall self, c self = (r, self)) -> ignores_chitchat_dict c.
Proof. intros Hc v self. rewrite !Hc. reflexivity. Qed.

Lemma ignores_modify f :
  (forall v self, f (set_chitchat_dict v self) = set_chitchat_dict v (f self)) ->
  ignores_chitchat_dict (modify f).
Proof. intros Hf v self. unfold modify. simpl. rewrite Hf. reflexivity. Qed.

Lemma ignores_attr {A} (x : option A) : ignores_chitchat_dict (attr x).
Proof. destruct x; [eapply (ignores_const _ (Ok a)) | eapply (ignores_const _ (Raise _))]; reflexivity. Qed.

Lemma ignores_getitem {V} (d : gmap string V) k :
  ignores_chitchat_dict (getitem d k).
Proof.
  unfold getitem.
  destruct (d !! k) as [x|];
    [eapply (ignores_const _ (Ok x)) | eapply (ignores_const _ (Raise _))];
    reflexivity.
Qed.

Lemma ignores_getitem_opt {V} (d : gmap string V) k :
  ignores_chitchat_dict (getitem_opt d k).
Proof.
  destruct k; [apply ignores_getitem|].
  eapply (ignores_const _ (Raise _)); reflexivity.
Qed.

Lemma ignores_lift {A} (r : result A) : ignores_chitchat_dict (lift r).
Proof. apply (ignores_const _ r). reflexivity. Qed.

Lemma ignores_random_choice rnd l : ignores_chitchat_dict (random_choice rnd l).
Proof.
  unfold random_choice.
  destruct (l !! _) as [x|];
    [eapply (ignores_const _ (Ok x)) | eapply (ignores_const _ (Raise _))];
    reflexivity.
Qed.

Lemma ignores_set_queue q : ignores_chitchat_dict (modify (set_queue q)).
Proof. apply ignores_modify. reflexivity. Qed.

Lemma ignores_set_last_question x :
  ignores_chitchat_dict (modify (set_last_question x)).
Proof. apply ignores_modify. reflexivity. Qed.

Lemma ignores_queue_append x : ignores_chitchat_dict (queue_append x).
Proof. apply ignores_modify. reflexivity. Qed.

Lemma chitchat_hit_latest chit_d intent latest :
  latest ∈ (map_to_list chit_d).*2 ->
  chitchat_hit chit_d intent (Some latest) = None.
Proof.
  intros Hin. unfold chitchat_hit. destruct (chit_d !! intent); [|reflexivity].
  rewrite (bool_decide_eq_true_2 _ Hin). reflexivity.
Qed.

Lemma chitchat_hit_empty intent latest : chitchat_hit ∅ intent latest = None.
Proof. unfold chitchat_hit. rewrite lookup_empty. reflexivity. Qed.

Lemma ignores_run_through_queue domain :
  ignores_chitchat_dict (_run_through_queue domain).
Proof.
  intros v self. destruct (queue self) as [|front rest] eqn:Hq.
  - rewrite !run_through_queue_nil by (simpl; exact Hq). reflexivity.
  - rewrite (run_through_queue_cons domain self front rest Hq).
    rewrite (run_through_queue_cons domain _ front rest) by exact Hq.
    reflexivity.
Qed.

Lemma ignores_get_bind {B} (k : SimpleForm -> M B) :
  (forall v self, k (set_chitchat_dict v self) = k self) ->
  (forall s0, ignores_chitchat_dict (k s0)) ->
  ignores_chitchat_dict (bind get k).
Proof.
  intros Hk Hi v self. unfold bind, get. rewrite Hk. apply Hi.
Qed.

Lemma ignores_make_question_queue question :
  ignores_chitchat_dict (_make_question_queue question).
Proof.
  unfold _make_question_queue. apply ignores_get_bind; [reflexivity|].
  intros s0. apply ignores_bind; [apply ignores_getitem_opt|]. intros d.
  apply ignores_bind; [apply ignores_getitem|]. intros ask.
  apply ignores_bind; [apply ignores_getitem_opt|]. intros dl.
  destruct (dl !! "follow_up_action");
    eapply (ignores_const _ (Ok _)); reflexivity.
Qed.

Lemma ignores_update_requirements tracker :
  ignores_chitchat_dict (_update_requirements tracker).
Proof.
  intros v self. unfold _update_requirements, bind, get, modify, lift, ret.
  simpl. destruct (rules self); [|reflexivity].
  destruct (accumulate _ _); reflexivity.
Qed.

Lemma updated_set_chitchat_dict tracker v self :
  updated tracker (set_chitchat_dict v self) =
    set_chitchat_dict v (updated tracker self).
Proof. unfold updated. rewrite ignores_update_requirements. reflexivity. Qed.

Lemma next_action_idx_past_chitchat_eq tracker domain rnd self intent exit_d
    chit_d :
  queue self = [] ->
  intent_of tracker = Ok intent ->
  recomputation_returns tracker self ->
  exit_dict self = Some exit_d ->
  exit_d !! intent = None ->
  chitchat_dict self = Some chit_d ->
  chitchat_hit chit_d intent (latest_action_name tracker) = None ->
  next_action_idx tracker domain rnd self =
    decision_tail tracker domain rnd intent (updated tracker self)
      (updated tracker self).
Proof.
  intros Hq Hint Hup Hexit Hne Hchit Hhit.
  rewrite (surjective_pairing
             (decision_tail tracker domain rnd intent (updated tracker self)
                (updated tracker self))).
  apply holds_eq.
  apply (next_action_idx_past_chitchat tracker domain rnd self intent exit_d
           chit_d); try assumption.
  split; reflexivity.
Qed.

Lemma next_action_idx_no_exit_dict_eq tracker domain rnd self intent :
  queue self = [] ->
  intent_of tracker = Ok intent ->
  recomputation_returns tracker self ->
  exit_dict self = None ->
  next_action_idx tracker domain rnd self =
    (Raise AttributeError, updated tracker self).
Proof.
  intros Hq Hint Hup Hexit. apply holds_eq.
  apply (next_action_idx_decision tracker domain rnd self intent);
    try assumption.
  apply holds_bind, holds_attr. rewrite updated_exit_dict, Hexit.
  split; reflexivity.
Qed.

Lemma ignores_decision_tail tracker domain rnd intent s1 :
  ignores_chitchat_dict (decision_tail tracker domain rnd intent s1).
Proof.
  apply ignores_bind; [apply ignores_lift|]. intros clarify.
  destruct clarify.
  - apply ignores_bind; [apply ignores_getitem_opt|]. intros d.
    apply ignores_bind; [apply ignores_getitem|]. intros c.
    apply ignores_bind; [apply ignores_set_queue|]. intros _.
    apply ignores_bind; [apply ignores_make_question_queue|]. intros q.
    apply ignores_bind; [apply ignores_queue_append|]. intros _.
    apply ignores_run_through_queue.
  - destruct (Nat.eqb (length _) 0).
    + apply ignores_bind; [apply ignores_set_queue|]. intros _.
      apply ignores_run_through_queue.
    + apply ignores_bind; [apply ignores_random_choice|]. intros chosen.
      apply ignores_bind; [apply ignores_set_last_question|]. intros _.
      apply ignores_bind; [apply ignores_make_question_queue|]. intros q.
      apply ignores_bind; [apply ignores_set_queue|]. intros _.
      apply ignores_run_through_queue.
Qed.

(** X13.  Loop prevention.  When the latest executed action is one of the
    values of [chitchat_dict], a call does not take the chitchat branch,
    whatever the intent: it answers, and leaves the plan, exactly as it
    would for a plan whose [chitchat_dict] is empty. *)
Theorem chitchat_loop_prevention tracker domain rnd self chit_d latest :
  chitchat_dict self = Some chit_d ->
  latest_action_name tracker = Some latest ->
  latest ∈ (map_to_list chit_d).*2 ->
  let out := next_action_idx tracker domain rnd self in
  let out' := next_action_idx tracker domain rnd
                (set_chitchat_dict (Some ∅) self) in
  out'.1 = out.1 /\ out'.2 = set_chitchat_dict (Some ∅) out.2.
Proof.
  intros Hchit Hlatest Hin out out'. subst out out'.
  destruct (queue self) as [|front rest] eqn:Hq.
  2:{ rewrite (next_action_idx_cons tracker domain rnd self front rest Hq).
      rewrite (next_action_idx_cons tracker domain rnd _ front rest)
        by exact Hq.
      split; reflexivity. }
  destruct (intent_of tracker) as [intent|e] eqn:Hint.
  2:{ rewrite !(next_action_idx_intent_raises_eq tracker domain rnd _ e)
        by assumption.
      split; reflexivity. }
  destruct (update_requirements_result tracker self) as [Hup|[e Hup]].
  2:{ rewrite (next_action_idx_update_raises_eq tracker domain rnd self intent e)
        by assumption.
      rewrite (next_action_idx_update_raises_eq tracker domain rnd _ intent e);
        [split; reflexivity | exact Hq | exact Hint |].
      rewrite ignores_update_requirements. exact Hup. }
  assert (Hup' : recomputation_returns tracker
                   (set_chitchat_dict (Some ∅) self)).
  { unfold recomputation_returns. rewrite ignores_update_requirements.
    exact Hup. }
  destruct (exit_dict self) as [exit_d|] eqn:Hexit.
  2:{ rewrite !(next_action_idx_no_exit_dict_eq tracker domain rnd _ intent)
        by assumption.
      rewrite updated_set_chitchat_dict. split; reflexivity. }
  destruct (exit_d !! intent) as [a|] eqn:Ha.
  { rewrite (next_action_idx_exit_eq tracker domain rnd self intent exit_d a)
      by assumption.
    rewrite (next_action_idx_exit_eq tracker domain rnd _ intent exit_d a)
      by assumption.
    rewrite updated_set_chitchat_dict. split; reflexivity. }
  rewrite (next_action_idx_past_chitchat_eq tracker domain rnd self intent
             exit_d chit_d)
    by (try assumption; rewrite Hlatest; apply chitchat_hit_latest, Hin).
  rewrite (next_action_idx_past_chitchat_eq tracker domain rnd _ intent
             exit_d ∅)
    by (try assumption; try reflexivity; apply chitchat_hit_empty).
  rewrite updated_set_chitchat_dict.
  change (decision_tail tracker domain rnd intent
            (set_chitchat_dict (Some ∅) (updated tracker self)))
    with (decision_tail tracker domain rnd intent (updated tracker self)).
  rewrite (ignores_decision_tail tracker domain rnd intent
             (updated tracker self) (Some ∅) (updated tracker self)).
  split; reflexivity.
Qed.

Lemma chitchat_loop_prevention_witness :
  let tracker := ex_tracker ∅ "plan_weather" "utter_weather" in
  let out := next_action_idx tracker ex_domain 0 ex_form_asked in
  let out' := next_action_idx tracker ex_domain 0
                (set_chitchat_dict (Some ∅) ex_form_asked) in
  out'.1 = out.1 /\ out'.2 = set_chitchat_dict (Some ∅) out.2.
Proof.
  apply (chitchat_loop_prevention (ex_tracker ∅ "plan_weather" "utter_weather")
           ex_domain 0%nat ex_form_asked ex_chitchat_dict "utter_weather").
  - reflexivity.
  - reflexivity.
  - vm_compute. repeat constructor.
Defined.

(** ** The pure parts *)

(** X14.  [check_unfilled_slots] returns, without repetition, exactly the
    slots of [current_required] that have no non-null value in the tracker:
    a slot the tracker does not know and a slot whose value is [None] both
    count as unfilled, and no slot outside [current_required] is ever
    returned. *)
Theorem check_unfilled_slots_spec self tracker :
  NoDup (check_unfilled_slots self tracker) /\
  forall s,
    s ∈ check_unfilled_slots self tracker <->
    s ∈ current_required self /\
    (current_slot_values tracker !! s = None \/
     current_slot_values tracker !! s = Some PNone).
Proof.
  split; [apply NoDup_elements|].
  intros s. rewrite check_unfilled_slots_elem.
  split; intros [Hreq Hn]; (split; [exact Hreq|]).
  - destruct (current_slot_values tracker !! s) as [v|]; [|left; reflexivity].
    destruct (pyval_None_dec v) as [->|Hv]; [right; reflexivity|].
    exfalso. apply Hn. eauto.
  - intros (v & Hs & Hv). destruct Hn as [Hn|Hn]; congruence.
Qed.

(** X15.  Recomputing the requirements twice from the same tracker is the
    same as recomputing them once: [_update_requirements] starts from the
    base [required_slots] each time and accumulates nothing across calls
    (and when it raises it has changed nothing). *)
Theorem update_requirements_idempotent tracker self :
  updated tracker (updated tracker self) = updated tracker self.
Proof.
  unfold updated, _update_requirements, bind, get, modify, lift, ret. simpl.
  destruct (rules self) as [table|] eqn:Hr; simpl; [|rewrite Hr; reflexivity].
  destruct (accumulate table (current_slot_values tracker)) as [acc|e] eqn:Hacc;
    simpl; rewrite Hr, Hacc; reflexivity.
Qed.

(** X16.  When every slot value can be hashed and no (slot, value) pair of
    the tracker finds a key of the rule table (as a dict finds keys, so a
    value [1] would find a rule keyed [True]), the recomputed requirements
    are the base required slots, no more and no fewer, listed without
    repetition. *)
Theorem update_requirements_no_rule tracker self table :
  rules self = Some table ->
  hashable_slots (current_slot_values tracker) ->
  (forall slot value key,
     current_slot_values tracker !! slot = Some value ->
     key_of value = Some key ->
     table !! (slot, key) = None) ->
  recomputation_returns tracker self /\
  NoDup (current_required (updated tracker self)) /\
  forall x, x ∈ current_required (updated tracker self) <->
            x ∈ required_slots self.
Proof.
  intros Hr Hh Hmiss.
  destruct (accumulate_hashable table _ Hh) as [acc Hacc].
  split; [apply recomputation_returns_hashable, Hh|].
  rewrite (updated_current_required tracker self table acc Hr Hacc).
  split; [apply NoDup_elements|].
  intros x. rewrite elem_of_elements, elem_of_difference, !elem_of_list_to_set.
  rewrite elem_of_app, (accumulate_add _ _ _ _ Hacc),
    (accumulate_take _ _ _ _ Hacc).
  split.
  - intros [[Hx|(slot & value & key & add & take & Hs & Hk & Ht & _)] _];
      [exact Hx|].
    rewrite (Hmiss slot value key Hs Hk) in Ht. discriminate Ht.
  - intros Hx. split; [left; exact Hx|].
    intros (slot & value & key & add & take & Hs & Hk & Ht & _).
    rewrite (Hmiss slot value key Hs Hk) in Ht. discriminate Ht.
Qed.

(** The car rental plan has a rule for [has_car = no]; the tracker holds
    [has_car = yes]. *)
Lemma update_requirements_no_rule_witness :
  recomputation_returns ex_undeclared_tracker ex_car_form /\
  NoDup (current_required (updated ex_undeclared_tracker ex_car_form)) /\
  forall x,
    x ∈ current_required (updated ex_undeclared_tracker ex_car_form) <->
    x ∈ required_slots ex_car_form.
Proof.
  apply (update_requirements_no_rule ex_undeclared_tracker ex_car_form
           (<[("has_car", KStr "no") := (None, Some ["license"])]> ∅)).
  - reflexivity.
  - eapply (accumulate_Ok_hashable ∅). vm_compute. reflexivity.
  - intros slot value key Hs Hk. simpl in Hs.
    apply lookup_insert_Some in Hs as [[<- <-]|[_ Hs]];
      [|rewrite lookup_empty in Hs; discriminate Hs].
    injection Hk as <-. vm_compute. reflexivity.
Defined.

(** X17.  The compiled rule table has an entry for a (slot, value) pair
    exactly when the rule mapping has a leaf under that slot and that
    value, and the entry is then that leaf's ['need'] and ['lose']; the
    compiler invents no entry and an empty mapping compiles to an empty
    table. *)
Theorem process_rules_dict_entries (r : rules_spec) :
  (forall slot value e,
     process_rules_dict r !! (slot, value) = Some e <->
     exists values (leaf : rule_leaf),
       r !! slot = Some values /\ values !! value = Some leaf /\
       e = (leaf !! "need", leaf !! "lose")) /\
  process_rules_dict ∅ = ∅.
Proof.
  split.
  - intros slot value e. rewrite process_rules_dict_lookup. split.
    + destruct (r !! slot) as [values|]; [|discriminate].
      destruct (values !! value) as [leaf|] eqn:Hv; [|discriminate].
      simpl. intros [= <-]. exists values, leaf. auto.
    + intros (values & leaf & -> & Hv & ->). rewrite Hv. reflexivity.
  - apply map_eq. intros [slot value].
    rewrite process_rules_dict_lookup, !lookup_empty. reflexivity.
Qed.

(** X18.  A new plan.  Given a rule mapping the constructor succeeds, and
    the plan it returns has an empty queue, no slot asked yet, and as
    current and base requirements the keys of [slot_dict], each once;
    [as_dict] gives back the constructor's arguments, the rule mapping as
    it was passed and [slot_dict] under the key ['required_slots']. *)
Theorem init_new_plan nm sd fin opt ex ch det (r : rules_spec) subj :
  exists f,
    SimpleForm_init nm sd fin opt ex ch det (Some r) subj = Ok f /\
    queue f = [] /\
    last_question f = None /\
    current_required f = required_slots f /\
    NoDup (required_slots f) /\
    (forall s, s ∈ required_slots f <-> is_Some (sd !! s)) /\
    as_dict f =
      {| d_name := nm; d_required_slots := sd; d_optional_slots := opt;
         d_finish_action := fin; d_exit_dict := ex; d_chitchat_dict := ch;
         d_details_intent := det; d_rules := Some r; d_subject := subj |}.
Proof.
  eexists. split; [reflexivity|]. simpl.
  repeat (split; [reflexivity|]).
  split; [apply NoDup_fst_map_to_list|]. split; [|reflexivity].
  intros s. rewrite list_elem_of_fmap. split.
  - intros ([s' d] & -> & Hin). apply elem_of_map_to_list in Hin. eauto.
  - intros [d Hd]. exists (s, d). split; [reflexivity|].
    apply elem_of_map_to_list. exact Hd.
Qed.

(** X19.  [_make_question_queue] assigns to nothing, and [KeyError] is the
    only exception it raises; when it returns, the list starts with an ask
    action followed by ['action_listen'] and has two or three elements. *)
Theorem make_question_queue_pure question self :
  (_make_question_queue question self).2 = self /\
  ((_make_question_queue question self).1 = Raise KeyError \/
   exists ask rest,
     (_make_question_queue question self).1
       = Ok (ask :: "action_listen" :: rest) /\
     (length rest <= 1)%nat).
Proof.
  apply (holds_make_question_queue question self
           (fun r s' => s' = self /\
              (r = Raise KeyError \/
               exists ask rest, r = Ok (ask :: "action_listen" :: rest) /\
                                (length rest <= 1)%nat))).
  repeat case_match; try (split; [reflexivity | left; reflexivity]).
  split; [reflexivity|]. right. eexists _, _. split; [reflexivity|].
  apply length_follow_up.
Qed.

(** ** The intent *)

Lemma prefix_append old post : String.prefix old (old +:+ post) = true.
Proof.
  induction old as [|a old IH]; simpl.
  - destruct post; reflexivity.
  - destruct (ascii_dec a a) as [_|Hne]; [exact IH | contradiction].
Qed.

Lemma str_drop_append old post :
  str_drop (String.length old) (old +:+ post) = post.
Proof. induction old as [|a old IH]; simpl; [reflexivity | exact IH]. Qed.

Lemma str_contains_unfold sub s :
  str_contains sub s =
    if String.prefix sub s then true
    else match s with
         | EmptyString => false
         | String _ s' => str_contains sub s'
         end.
Proof. destruct s; reflexivity. Qed.

Lemma str_replace_first_unfold old new s :
  str_replace_first old new s =
    if String.prefix old s then new +:+ str_drop (String.length old) s
    else match s with
         | EmptyString => EmptyString
         | String c s' => String c (str_replace_first old new s')
         end.
Proof. destruct s; reflexivity. Qed.

Lemma str_replace_first_absent old new s :
  str_contains old s = false -> str_replace_first old new s = s.
Proof.
  induction s as [|c s IH];
    rewrite str_contains_unfold, str_replace_first_unfold.
  - destruct (String.prefix old EmptyString); [discriminate | reflexivity].
  - destruct (String.prefix old (String c s)); [discriminate|].
    intros Hs. rewrite (IH Hs). reflexivity.
Qed.

Lemma str_replace_first_at old new pre : forall post,
  (forall p1 c p2, pre = p1 +:+ String c p2 ->
     String.prefix old (String c p2 +:+ old +:+ post) = false) ->
  str_replace_first old new (pre +:+ old +:+ post) = pre +:+ new +:+ post.
Proof.
  induction pre as [|c pre IH]; intros post Hfirst.
  - change (EmptyString +:+ old +:+ post) with (old +:+ post).
    change (EmptyString +:+ new +:+ post) with (new +:+ post).
    rewrite str_replace_first_unfold, prefix_append, str_drop_append.
    reflexivity.
  - rewrite str_replace_first_unfold.
    rewrite (Hfirst EmptyString c pre eq_refl).
    change (String c pre +:+ old +:+ post)
      with (String c (pre +:+ old +:+ post)).
    cbv iota. rewrite IH; [reflexivity|].
    intros p1 c' p2 ->. apply (Hfirst (String c p1) c' p2). reflexivity.
Qed.

(** X20.  The intent the branches test is the latest intent name with the
    FIRST occurrence of ['plan_'] removed, wherever it stands, not only a
    leading one: a name without ['plan_'] is taken as it is, and in a name
    [pre ++ 'plan_' ++ post] where no occurrence starts inside [pre] the
    result is [pre ++ post], with any later ['plan_'] of [post] kept. *)
Theorem intent_of_first_occurrence tracker name :
  latest_intent_name tracker = Ok (Some name) ->
  (str_contains "plan_" name = false -> intent_of tracker = Ok name) /\
  (forall pre post,
     name = pre +:+ "plan_" +:+ post ->
     (forall p1 c p2, pre = p1 +:+ String c p2 ->
        String.prefix "plan_" (String c p2 +:+ "plan_" +:+ post) = false) ->
     intent_of tracker = Ok (pre +:+ post)).
Proof.
  intros Hname. unfold intent_of. rewrite Hname. split.
  - intros Habs. rewrite (str_replace_first_absent _ _ _ Habs). reflexivity.
  - intros pre post -> Hfirst.
    rewrite (str_replace_first_at "plan_" EmptyString pre post Hfirst).
    reflexivity.
Qed.

Lemma intent_of_first_occurrence_witness :
  intent_of (ex_tracker ∅ "re_plan_plan_b" "action_listen") = Ok "re_plan_b".
Proof.
  apply (proj2 (intent_of_first_occurrence
                  (ex_tracker ∅ "re_plan_plan_b" "action_listen")
                  "re_plan_plan_b" eq_refl)
           "re_" "plan_b").
  - reflexivity.
  - intros p1 c p2 Hpre.
    destruct p1 as [|a1 [|a2 [|a3 p1]]]; simpl in Hpre.
    + injection Hpre as <- <-. reflexivity.
    + injection Hpre as _ <- <-. reflexivity.
    + injection Hpre as _ _ <- <-. reflexivity.
    + destruct p1; discriminate Hpre.
Defined.

(** ** Keys *)

Lemma hashable_slots_same_keys (slots slots' : gmap string pyval) :
  (forall slot, key_of <$> slots !! slot = key_of <$> slots' !! slot) ->
  hashable_slots slots -> hashable_slots slots'.
Proof.
  intros Hsame Hh slot value Hs. specialize (Hsame slot). rewrite Hs in Hsame.
  destruct (slots !! slot) as [v|] eqn:Hv; [|discriminate Hsame].
  simpl in Hsame. injection Hsame as <-. exact (Hh slot v Hv).
Qed.

Lemma adds_of_same_keys table (slots slots' : gmap string pyval) x :
  (forall slot, key_of <$> slots !! slot = key_of <$> slots' !! slot) ->
  adds_of table slots x -> adds_of table slots' x.
Proof.
  intros Hsame (slot & value & key & add & take & Hs & Hk & Ht & Hx).
  specialize (Hsame slot). rewrite Hs in Hsame.
  destruct (slots' !! slot) as [v'|] eqn:Hv'; [|discriminate Hsame].
  simpl in Hsame. injection Hsame as Hkk.
  exists slot, v', key, add, take. rewrite <- Hkk. auto.
Qed.

Lemma removes_of_same_keys table (slots slots' : gmap string pyval) x :
  (forall slot, key_of <$> slots !! slot = key_of <$> slots' !! slot) ->
  removes_of table slots x -> removes_of table slots' x.
Proof.
  intros Hsame (slot & value & key & add & take & Hs & Hk & Ht & Hx).
  specialize (Hsame slot). rewrite Hs in Hsame.
  destruct (slots' !! slot) as [v'|] eqn:Hv'; [|discriminate Hsame].
  simpl in Hsame. injection Hsame as Hkk.
  exists slot, v', key, add, take. rewrite <- Hkk. auto.
Qed.

(** X24.  The recomputation sees a slot value only through the key a dict
    finds it under: two trackers whose slots hold, slot by slot, values
    with the same key (the integer [1] for [True], [0] for [False]) or
    values that are both unhashable give the same outcome, the same
    recomputed list or the same [TypeError]. *)
Theorem update_requirements_by_key tracker tracker' self :
  (forall slot,
     key_of <$> current_slot_values tracker !! slot =
     key_of <$> current_slot_values tracker' !! slot) ->
  _update_requirements tracker self = _update_requirements tracker' self.
Proof.
  intros Hsame.
  assert (Hsame' : forall slot,
     key_of <$> current_slot_values tracker' !! slot =
     key_of <$> current_slot_values tracker !! slot) by (intros; symmetry; auto).
  unfold _update_requirements, bind, get, modify, lift, ret. simpl.
  destruct (rules self) as [table|]; [|reflexivity].
  destruct (accumulate_result table (current_slot_values tracker))
    as [(acc & Hacc & Hh)|(Hacc & slot & value & Hs & Hk)];
  destruct (accumulate_result table (current_slot_values tracker'))
    as [(acc' & Hacc' & Hh')|(Hacc' & slot' & value' & Hs' & Hk')];
    rewrite Hacc, Hacc'; simpl.
  - assert (Hset : (list_to_set (required_slots self ++ acc.1) ∖
                    list_to_set acc.2 : gset string) =
                   list_to_set (required_slots self ++ acc'.1) ∖
                   list_to_set acc'.2).
    { apply set_eq. intros x.
      rewrite !elem_of_difference, !elem_of_list_to_set, !elem_of_app.
      rewrite (accumulate_add _ _ _ x Hacc), (accumulate_take _ _ _ x Hacc),
        (accumulate_add _ _ _ x Hacc'), (accumulate_take _ _ _ x Hacc').
      split; intros [[Hb|Ha] Hn]; (split; [|intros Hr; apply Hn]);
        eauto using adds_of_same_keys, removes_of_same_keys. }
    rewrite Hset. reflexivity.
  - exfalso.
    destruct (hashable_slots_same_keys _ _ Hsame Hh slot' value' Hs')
      as [key Hkey]. congruence.
  - exfalso.
    destruct (hashable_slots_same_keys _ _ Hsame' Hh' slot value Hs)
      as [key Hkey]. congruence.
  - reflexivity.
Qed.

(** [member] holds [1] in one tracker and [True] in the other. *)
Lemma update_requirements_by_key_witness :
  _update_requirements ex_member_tracker ex_member_form =
  _update_requirements
    (ex_tracker (<["member" := PBool true]> (<["guest" := PStr "yes"]> ∅))
       "plan_inform" "action_listen") ex_member_form.
Proof.
  apply (update_requirements_by_key ex_member_tracker
           (ex_tracker (<["member" := PBool true]> (<["guest" := PStr "yes"]> ∅))
              "plan_inform" "action_listen") ex_member_form).
  intros slot. simpl.
  destruct (decide (slot = "member")) as [->|Hm].
  - rewrite !lookup_insert_eq. reflexivity.
  - rewrite !(lookup_insert_ne _ "member" slot) by congruence.
    reflexivity.
Defined.
